(** * AssemblyAI-Video-to-SRT: subtitle block splitting and SRT time stamps

    A shallow embedding of the two pieces of [AssemblyAI-Video-to-SRT.py]
    that carry logic: the word grouping loop of [create_speaker_srt]
    ("SRT Generation Logic") and [format_srt_time].  The whole of
    [create_speaker_srt], with its calls to ffmpeg, AssemblyAI and the file
    system, follows in the module [Process]; the GUI class [App] is left
    out.

    Numbers.  Word times are Python [int]s (milliseconds), modelled as [Z].
    Python's [float] is binary64, modelled by [SpecFloat] at precision 53
    and emax 1024, with the operations the program uses: [int / int], the
    comparison [>=], [int(x)], and the mixed [x - n] and [x * n].  A quotient
    beyond the largest double, where Python raises [OverflowError], is the
    infinity IEEE 754 gives; no time that fits a transcript comes near it.

    Strings.  A [string] stands for a Python [str], one [ascii] per
    character, so [String.length] is [len]. *)

From Stdlib Require Import ZArith QArith List String Ascii Bool Lia.
From Stdlib Require Import Sorted DecimalString.
From Stdlib Require Import Floats.SpecFloat.
Import ListNotations.

(** ** Python floats *)

Module Binary64.

Definition prec : Z := 53.
Definition emax : Z := 1024.

(** A Python [float]. *)
Definition float : Type := spec_float.

(** [float(n)] for an [int] [n], as in the mixed operations [x - n],
    [x * n] and [x >= n]: the nearest double, ties to even. *)
Definition of_int (n : Z) : float :=
  binary_normalize prec emax n 0 false.

(** [a / b] for an [int] [a] and a positive [int] [b] (the program divides
    by the literal 1000 only): the correctly rounded quotient. *)
Definition true_div (a : Z) (b : positive) : float :=
  match a with
  | Z0 => S754_zero false
  | _ =>
      let '(mz, ez, lz) :=
        SFdiv_core_binary prec emax (Z.abs a) 0 (Zpos b) 0 in
      binary_round_aux prec emax (a <? 0)%Z mz ez lz
  end.

(** [int(x)]: truncation toward zero; an exception on infinities and
    NaN. *)
Definition to_int (x : float) : option Z :=
  match x with
  | S754_zero _ => Some 0%Z
  | S754_finite s m e => Some (cond_Zopp s (Z.shiftl (Zpos m) e))
  | S754_infinity _ | S754_nan => None
  end.

Definition sub : float -> float -> float := SFsub prec emax.
Definition mul : float -> float -> float := SFmul prec emax.

(** [x >= y] and [x <= y]; false when either side is a NaN. *)
Definition geb (x y : float) : bool := SFleb y x.
Definition leb (x y : float) : bool := SFleb x y.

(** The double the literal [0.7] denotes: the correctly rounded 7/10. *)
Definition literal_0_7 : float := S754_finite false 6305039478318694 (-53).

(** A double that is zero or positive and finite, in canonical form. *)
Definition nonneg_finite (x : float) : Prop :=
  match x with
  | S754_zero _ => True
  | S754_finite s m e => s = false /\ bounded prec emax m e = true
  | S754_infinity _ | S754_nan => False
  end.

(** The number a double stands for: [m * 2 ^ e], signed. *)
Definition to_Q (x : float) : Q :=
  match x with
  | S754_finite s m e =>
      match e with
      | Zneg k => Qmake (cond_Zopp s (Zpos m)) (2 ^ k)%positive
      | _ => inject_Z (cond_Zopp s (Zpos m) * 2 ^ e)
      end
  | _ => 0%Q
  end.

End Binary64.

(** ** Words and written blocks *)

(** A word of [transcript.words]: [word.text], [word.start], [word.end]. *)
Record Word : Type := mkWord {
  text : string;
  start : Z;
  end_ : Z
}.

(** One block written to the file: the values of [srt_counter], of the two
    arguments handed to [format_srt_time], and of [text]. *)
Record Cue : Type := mkCue {
  index : Z;
  cue_start : Binary64.float;
  cue_end : Binary64.float;
  cue_text : string
}.

Definition MAX_PAUSE_S : Binary64.float := Binary64.literal_0_7.
Definition MAX_CHARS : nat := 80.
Definition MAX_DURATION_S : Z := 7.

(** [" ".join(w.text for w in current_block_words)] *)
Definition joined (ws : list Word) : string :=
  String.concat " " (map text ws).

(** ** The loop body

    The open block [current_block_words], when it is not empty, is carried as
    its first word and the words after it, so that [current_block_words[0]]
    and [current_block_words[-1]] are total. *)

Definition pause_duration (prev_word word : Word) : Binary64.float :=
  Binary64.true_div (start word - end_ prev_word) 1000.

Definition block_duration (block_start_time : Z) (word : Word) : Binary64.float :=
  Binary64.true_div (end_ word - block_start_time) 1000.

Definition pause_trigger (first : Word) (others : list Word) (word : Word) : bool :=
  Binary64.geb (pause_duration (last others first) word) MAX_PAUSE_S.

Definition length_trigger (first : Word) (others : list Word) (word : Word) : bool :=
  (MAX_CHARS <? String.length (joined (first :: others))
                + String.length (text word) + 1)%nat.

Definition duration_trigger (first : Word) (others : list Word) (word : Word) : bool :=
  Binary64.geb (block_duration (start first) word)
    (Binary64.of_int MAX_DURATION_S).

(** The flag the three [if]s of the loop body leave in
    [should_start_new_block]. *)
Definition should_start_new_block (first : Word) (others : list Word)
    (word : Word) : bool :=
  pause_trigger first others word
  || length_trigger first others word
  || duration_trigger first others word.

(** The three [f.write] calls for the block [first :: others]. *)
Definition write_block (srt_counter : Z) (first : Word) (others : list Word) : Cue :=
  {| index := srt_counter;
     cue_start := Binary64.true_div (start first) 1000;
     cue_end := Binary64.true_div (end_ (last others first)) 1000;
     cue_text := joined (first :: others) |}.

(** The variables the loop updates; [f] is the list of blocks written so
    far, oldest first. *)
Record LoopState : Type := mkState {
  srt_counter : Z;
  current_block_words : list Word;
  f : list Cue
}.

Definition process_word (st : LoopState) (word : Word) : LoopState :=
  match current_block_words st with
  | [] =>
      {| srt_counter := srt_counter st;
         current_block_words := [word];
         f := f st |}
  | first :: others =>
      if should_start_new_block first others word then
        {| srt_counter := (srt_counter st + 1)%Z;
           current_block_words := [word];
           f := f st ++ [write_block (srt_counter st) first others] |}
      else
        {| srt_counter := srt_counter st;
           current_block_words := (first :: others) ++ [word];
           f := f st |}
  end.

Definition initial_state : LoopState :=
  {| srt_counter := 1%Z; current_block_words := []; f := [] |}.

(** [for i, word in enumerate(transcript.words)] *)
Definition run_loop (words : list Word) (st : LoopState) : LoopState :=
  fold_left process_word words st.

(** [if current_block_words:] after the loop. *)
Definition flush (st : LoopState) : LoopState :=
  match current_block_words st with
  | [] => st
  | first :: others =>
      {| srt_counter := (srt_counter st + 1)%Z;
         current_block_words := current_block_words st;
         f := f st ++ [write_block (srt_counter st) first others] |}
  end.

(** Step 3 of [create_speaker_srt], from [srt_counter = 1] to the end of the
    [with] block. *)
Definition create_speaker_srt (words : list Word) : LoopState :=
  match words with
  | [] => initial_state
  | _ :: _ => flush (run_loop words initial_state)
  end.

(** The blocks of the file, and the number in "Generated {srt_counter - 1}
    subtitle blocks." *)
Definition srt_cues (words : list Word) : list Cue :=
  f (create_speaker_srt words).

Definition generated_blocks (words : list Word) : Z :=
  (srt_counter (create_speaker_srt words) - 1)%Z.

(** ** The groups behind the blocks

    [group_words cur words] lists the successive values [current_block_words]
    has when a block is written, for a loop entered with open block [cur]:
    the same control flow as [process_word] and [flush], the writes left
    out. *)
Fixpoint group_words (cur : list Word) (words : list Word) : list (list Word) :=
  match words with
  | [] => match cur with [] => [] | _ :: _ => [cur] end
  | word :: rest =>
      match cur with
      | [] => group_words [word] rest
      | first :: others =>
          if should_start_new_block first others word
          then cur :: group_words [word] rest
          else group_words (cur ++ [word]) rest
      end
  end.

Definition groups (words : list Word) : list (list Word) :=
  group_words [] words.

(** The blocks written for a list of closed groups, numbered from [n]. *)
Fixpoint cues_from (n : Z) (gs : list (list Word)) : list Cue :=
  match gs with
  | [] => []
  | [] :: gs' => cues_from n gs'
  | (first :: others) :: gs' =>
      write_block n first others :: cues_from (n + 1)%Z gs'
  end.

(** ** [format_srt_time] *)

(** [f"{n:0{width}d}"]: decimal digits, zero padded after the sign to
    [width] characters at least. *)
Definition zeros (k : nat) : string :=
  string_of_list_ascii (repeat "0"%char k).

Definition format_d (width : nat) (n : Z) : string :=
  let digits := NilZero.string_of_int (Z.to_int (Z.abs n)) in
  if (n <? 0)%Z
  then ("-" ++ zeros (width - 1 - String.length digits) ++ digits)%string
  else (zeros (width - String.length digits) ++ digits)%string.

(** [format_srt_time(seconds)]; [None] stands for the exception [int]
    raises on an infinity or a NaN. *)
Definition format_srt_time (seconds : Binary64.float) : option string :=
  match Binary64.to_int seconds with
  | None => None
  | Some whole =>
      match Binary64.to_int
              (Binary64.mul (Binary64.sub seconds (Binary64.of_int whole))
                            (Binary64.of_int 1000)) with
      | None => None
      | Some millisec =>
          let seconds := whole in
          let minutes := (seconds / 60)%Z in
          let seconds := (seconds mod 60)%Z in
          let hours := (minutes / 60)%Z in
          let minutes := (minutes mod 60)%Z in
          Some (format_d 2 hours ++ ":" ++ format_d 2 minutes ++ ":"
                ++ format_d 2 seconds ++ "," ++ format_d 3 millisec)%string
      end
  end.

(** ** The text of the file *)

Definition newline : string := String (ascii_of_nat 10) EmptyString.

(** What the three [f.write] calls append for one block. *)
Definition block_text (c : Cue) : option string :=
  match format_srt_time (cue_start c), format_srt_time (cue_end c) with
  | Some start_time, Some end_time =>
      Some (NilZero.string_of_int (Z.to_int (index c)) ++ newline
            ++ start_time ++ " --> " ++ end_time ++ newline
            ++ cue_text c ++ newline ++ newline)%string
  | _, _ => None
  end.

Fixpoint file_text (cues : list Cue) : option string :=
  match cues with
  | [] => Some EmptyString
  | c :: rest =>
      match block_text c, file_text rest with
      | Some b, Some r => Some (b ++ r)%string
      | _, _ => None
      end
  end.

Definition srt_file (words : list Word) : option string :=
  file_text (srt_cues words).

(** ** Vocabulary of the statements *)

(** [c] is the block of the group [g] written under the number [n]. *)
Definition cue_of_group (n : Z) (g : list Word) (c : Cue) : Prop :=
  exists first_word last_word,
    hd_error g = Some first_word
    /\ hd_error (rev g) = Some last_word
    /\ index c = n
    /\ cue_start c = Binary64.true_div (start first_word) 1000
    /\ cue_end c = Binary64.true_div (end_ last_word) 1000
    /\ cue_text c = String.concat " " (map text g).

(** The three triggers as conditions, in exact arithmetic, on the open
    block [first :: others] and the next word. *)
Definition pause_fires (first : Word) (others : list Word) (w : Word) : Prop :=
  7 # 10 <= inject_Z (start w - end_ (last others first)) / 1000.

Definition length_fires (first : Word) (others : list Word) (w : Word) : Prop :=
  (80 < String.length (String.concat " " (map text (first :: others)))
        + String.length (text w) + 1)%nat.

Definition duration_fires (first : Word) (others : list Word) (w : Word) : Prop :=
  7 <= inject_Z (end_ w - start first) / 1000.

(** The times of a block in terms of its group. *)
Definition block_times (g : list Word) (c : Cue) : Prop :=
  forall first others,
    g = first :: others ->
    cue_start c = Binary64.true_div (start first) 1000
    /\ cue_end c = Binary64.true_div (end_ (last others first)) 1000.

(** ** Vocabulary of the rounding proofs *)

(** The record reached after [k] one-bit right shifts of the quotient
    [M / D]: the kept bits, the last bit shifted out, and whether anything
    below it was set. *)
Definition shr_inv (D M k : Z) (mrs : shr_record) : Prop :=
  (0 <= shr_m mrs
  /\ exists t,
       0 <= t /\ 2 * t < D * 2 ^ k
       /\ (shr_s mrs = false <-> t = 0)
       /\ 2 * M = D * (2 ^ (k + 1) * shr_m mrs
                       + (if shr_r mrs then 2 ^ k else 0)) + 2 * t)%Z.

(** A double in the interval from 0 up to, not including, 1000. *)
Definition below_1000 (x : spec_float) : Prop :=
  x = S754_zero false
  \/ exists m e,
       x = S754_finite false m e
       /\ (e <= 0 /\ Zpos m < 1000 * 2 ^ (- e))%Z.

(** A double in the interval from 0 up to, not including, 1. *)
Definition small_frac (x : spec_float) : Prop :=
  x = S754_zero false
  \/ exists mf ef,
       x = S754_finite false mf ef
       /\ (Zpos (digits2_pos mf) <= 53 /\ -1074 <= ef
           /\ Zpos mf < 2 ^ (- ef))%Z.

(** ** Vocabulary of the further properties *)

(** [b] comes right after [a] in the list [l]. *)
Definition follows {A : Type} (l : list A) (a b : A) : Prop :=
  exists pre post, l = pre ++ a :: b :: post.



(** ** The whole of [create_speaker_srt]

    The function talks to the file system, to ffmpeg, to AssemblyAI and to
    the GUI.  A run is modelled by the list of what it does, in order; what
    the outside answers is read from a [World].  The calls of [log_callback]
    and [messagebox] are taken to come back. *)

Module Process.

Inductive Event : Type :=
| Log (message : string)                 (* log_callback(message) *)
| ShowError (title message : string)     (* messagebox.showerror(title, message) *)
| ShowInfo (title message : string)      (* messagebox.showinfo(title, message) *)
| Run (command : list string) (hide_window : bool)
                                         (* subprocess.run(command, ...) *)
| SetApiKey (api_key : string)           (* aai.settings.api_key = api_key *)
| Transcribe (audio_path : string)       (* transcriber.transcribe(audio_path, config) *)
| Remove (path : string)                 (* os.remove(path) *)
| Written (path content : string).       (* open(path, 'w') and the f.write calls *)

(** An exception, with the text [str] gives for it.  The handlers tell
    [FileNotFoundError] from the rest of [Exception]. *)
Inductive Exn : Type :=
| FileNotFoundError (text : string)
| OtherException (text : string).

Definition str (e : Exn) : string :=
  match e with
  | FileNotFoundError text => text
  | OtherException text => text
  end.

(** [result] of [subprocess.run]. *)
Record CompletedProcess : Type := {
  returncode : Z;
  stderr : string
}.

(** [transcript]: whether [transcript.status] is
    [aai.TranscriptStatus.error], [transcript.error], and
    [transcript.words], a missing list being the empty one. *)
Record Transcript : Type := {
  status_is_error : bool;
  error : string;
  words : list Word
}.

Record World : Type := {
  (* os.path.exists(video_path) *)
  video_exists : bool;
  (* os.path.basename and os.path.splitext *)
  basename : string -> string;
  splitext : string -> string * string;
  (* os.path.join(script_dir, "ffmpeg.exe") and os.path.exists of it *)
  local_ffmpeg_path : string;
  local_ffmpeg_exists : bool;
  (* os.name == 'nt' *)
  os_name_nt : bool;
  (* subprocess.run(command, ...): the result, or the exception raised *)
  subprocess_run : list string -> Exn + CompletedProcess;
  (* an exception raised by aai.Transcriber() or aai.TranscriptionConfig *)
  client_error : option Exn;
  (* transcriber.transcribe(audio_path, config) *)
  transcribe : string -> Exn + Transcript;
  (* os.path.exists(audio_path) in the finally clause *)
  audio_exists : bool;
  (* an exception raised by os.remove(path) *)
  os_remove : string -> option Exn;
  (* an exception raised by open(path, 'w', encoding='utf-8') *)
  open_write : string -> option Exn;
  (* the exception a failing conversion raises inside the loop *)
  loop_error : Exn
}.

(** How a block of statements ends: it runs through, it executes [return],
    or it raises. *)
Inductive Flow (A : Type) : Type :=
| Through (a : A)
| Returned
| Raised (e : Exn).

Arguments Through {A} a.
Arguments Returned {A}.
Arguments Raised {A} e.

(** What a block does, and how it ends. *)
Definition Block (A : Type) : Type := (list Event * Flow A)%type.

Definition ret {A : Type} (a : A) : Block A := ([], Through a).

Definition bind {A B : Type} (m : Block A) (k : A -> Block B) : Block B :=
  match m with
  | (t, Through a) => let (t', r) := k a in (t ++ t', r)
  | (t, Returned) => (t, Returned)
  | (t, Raised e) => (t, Raised e)
  end.

Definition emit (ev : Event) : Block unit := ([ev], Through tt).
Definition log (message : string) : Block unit := emit (Log message).
Definition return_ {A : Type} : Block A := ([], Returned).
Definition raise {A : Type} (e : Exn) : Block A := ([], Raised e).

(** A call that raises [e] or gives [a]. *)
Definition call {A : Type} (ev : Event) (r : Exn + A) : Block A :=
  match r with
  | inl e => ([ev], Raised e)
  | inr a => ([ev], Through a)
  end.

(** [try: body] with the clauses [except ... as e: handler e]. *)
Definition try_except {A : Type} (body : Block A) (handler : Exn -> Block A)
    : Block A :=
  match body with
  | (t, Raised e) => let (t', r) := handler e in (t ++ t', r)
  | _ => body
  end.

(** [try: body] with [finally: cleanup]: the clause runs however the body
    ends, and an exception of its own takes the place of that end. *)
Definition try_finally {A : Type} (body : Block A) (cleanup : Block unit)
    : Block A :=
  let (t, r) := body in
  match cleanup with
  | (t', Through _) => (t ++ t', r)
  | (t', Returned) => (t ++ t', Returned)
  | (t', Raised e) => (t ++ t', Raised e)
  end.

Notation "x <- m ;; k" := (bind m (fun x => k))
  (at level 61, m at next level, right associativity).
Notation "m ;; k" := (bind m (fun _ => k))
  (at level 61, right associativity).

Local Open Scope string_scope.

(** The character U+2705 of two of the messages, as its UTF-8 bytes. *)
Definition check_mark : string :=
  String (ascii_of_nat 226) (String (ascii_of_nat 156)
    (String (ascii_of_nat 133) EmptyString)).

(** [str(n)] for an [int]. *)
Definition str_int (n : Z) : string := NilZero.string_of_int (Z.to_int n).

(** [audio_path] *)
Definition audio_path (w : World) (video_path : string) : string :=
  let base_name := basename w video_path in
  let file_name := fst (splitext w base_name) in
  "temp_" ++ file_name ++ ".wav".

(** [ffmpeg_command_name] *)
Definition ffmpeg_command_name (w : World) : string :=
  if local_ffmpeg_exists w then local_ffmpeg_path w else "ffmpeg".

(** [command] *)
Definition command (w : World) (video_path : string) : list string :=
  [ffmpeg_command_name w;
   "-i"; video_path;
   "-y";
   "-vn";
   "-acodec"; "pcm_s16le";
   "-ar"; "16000";
   "-ac"; "1";
   audio_path w video_path].

Definition halted : Block unit := log "--- Process Halted ---".

(** Step 1, the [try] statement with its two [except] clauses. *)
Definition extract_audio (w : World) (video_path : string) : Block unit :=
  try_except
    ((if local_ffmpeg_exists w
      then log ("-> Using local ffmpeg executable: " ++ local_ffmpeg_path w)
      else log "-> Local 'ffmpeg.exe' not found. Relying on system PATH for 'ffmpeg'.") ;;
     log ("-> Creating temporary audio file using ffmpeg: "
          ++ audio_path w video_path) ;;
     result <- call (Run (command w video_path) (os_name_nt w))
                    (subprocess_run w (command w video_path)) ;;
     (if negb (returncode result =? 0)%Z then
        log "--- FFmpeg Error ---" ;;
        log ("ffmpeg failed with exit code " ++ str_int (returncode result)) ;;
        log "Error Details:" ;;
        log (stderr result) ;;
        log "--- Please ensure 'ffmpeg.exe' is located in the same directory as this application, or installed and in your system's PATH. ---" ;;
        halted ;;
        return_
      else ret tt) ;;
     log "-> Audio extracted successfully." ;;
     log (check_mark ++ " Step 1 Complete: Audio Extraction Finished."))
    (fun e =>
       match e with
       | FileNotFoundError _ =>
           log "Error: 'ffmpeg' command not found." ;;
           log "Please ensure 'ffmpeg.exe' is located in the same directory as this application, or installed and in your system's PATH." ;;
           log "You can download it from: https://ffmpeg.org/download.html" ;;
           halted ;;
           emit (ShowError "FFmpeg Not Found"
                   "ffmpeg is required for audio extraction. Please ensure 'ffmpeg.exe' is in the same directory as this application, or installed and added to your system's PATH.") ;;
           return_
       | OtherException _ =>
           log ("Error extracting audio: " ++ str e) ;;
           halted ;;
           return_
       end).

(** Step 2, the [try] statement with its [except] and [finally] clauses;
    it hands [transcript.words] to Step 3. *)
Definition transcribe_audio (w : World) (video_path api_key : string)
    : Block (list Word) :=
  try_finally
    (try_except
       (log "-> Configuring AssemblyAI client with API key..." ;;
        emit (SetApiKey api_key) ;;
        match client_error w with Some e => raise e | None => ret tt end ;;
        log ("-> Uploading '" ++ basename w (audio_path w video_path)
             ++ "' for transcription...") ;;
        log "(This may take a while depending on file size)" ;;
        transcript <- call (Transcribe (audio_path w video_path))
                           (transcribe w (audio_path w video_path)) ;;
        log "-> Checking transcription status..." ;;
        (if status_is_error transcript then
           log ("Transcription Failed: " ++ error transcript) ;;
           halted ;;
           return_
         else ret tt) ;;
        match words transcript with
        | [] => log "Warning: Could not find any speech or words in the audio."
        | _ :: _ => ret tt
        end ;;
        log "-> Transcription successful." ;;
        log (check_mark ++ " Step 2 Complete: Transcription Finished.") ;;
        ret (words transcript))
       (fun e =>
          log ("Error during transcription: " ++ str e) ;;
          halted ;;
          return_))
    (if audio_exists w then
       log "-> Cleaning up temporary files..." ;;
       call (Remove (audio_path w video_path))
            (match os_remove w (audio_path w video_path) with
             | Some e => inl e
             | None => inr tt
             end) ;;
       log ("-> Removed temporary audio file: " ++ audio_path w video_path)
     else ret tt).

(** What the file holds when the [with] block is left: every block up to
    the first one whose time stamps cannot be made. *)
Fixpoint written_text (cues : list Cue) : string :=
  match cues with
  | [] => EmptyString
  | c :: rest =>
      match block_text c with
      | Some b => b ++ written_text rest
      | None => EmptyString
      end
  end.

(** Step 3: the [with] statement and the messages after it. *)
Definition generate_srt (w : World) (srt_path : string) (words : list Word)
    : Block unit :=
  match open_write w srt_path with
  | Some e => raise e
  | None =>
      emit (Written srt_path (written_text (srt_cues words))) ;;
      match srt_file words with
      | Some _ => ret tt
      | None => raise (loop_error w)
      end
  end ;;
  log ("-> Generated " ++ str_int (generated_blocks words)
       ++ " subtitle blocks.") ;;
  log (check_mark ++ " Step 3 Complete: SRT File Generation Finished.").

(** The body of the outer [try]. *)
Definition process (w : World) (video_path srt_path api_key : string)
    : Block unit :=
  log "--- Starting New Transcription Process ---" ;;
  (if negb (video_exists w) then
     log ("Error: Video file not found at '" ++ video_path ++ "'") ;;
     halted ;;
     return_
   else ret tt) ;;
  log ("Input Video: " ++ video_path) ;;
  log ("Output SRT: " ++ srt_path) ;;
  log (newline ++ "[Step 1/3] Extracting Audio from Video...") ;;
  extract_audio w video_path ;;
  log (newline ++ "[Step 2/3] Transcribing Audio with AssemblyAI...") ;;
  words <- transcribe_audio w video_path api_key ;;
  log (newline ++ "[Step 3/3] Generating SRT File at '" ++ srt_path ++ "'...") ;;
  log "-> Applying subtitle formatting and splitting logic..." ;;
  generate_srt w srt_path words ;;
  log (newline ++ "-------------------------------------------") ;;
  log "PROCESS COMPLETE!" ;;
  log ("SRT file has been saved to: " ++ srt_path) ;;
  emit (ShowInfo "Success"
          ("SRT file has been created successfully at:" ++ newline ++ srt_path)).

(** [create_speaker_srt(video_path, srt_path, api_key, log_callback)]: what
    the call does, the outer [except Exception] included. *)
Definition create_speaker_srt (w : World) (video_path srt_path api_key : string)
    : list Event :=
  fst (try_except (process w video_path srt_path api_key)
         (fun e =>
            let error_message := "An unexpected error occurred: " ++ str e in
            log error_message ;;
            log "--- Process Halted due to unexpected error ---" ;;
            emit (ShowError "Error" error_message))).

(** ** Vocabulary of the statements about a run *)


(** The two messages that say a run has stopped short. *)
Definition halt_line (message : string) : Prop :=
  message = "--- Process Halted ---"
  \/ message = "--- Process Halted due to unexpected error ---".

(** The temporary audio file is out of the way after Step 2. *)
Definition cleaned (w : World) (video_path : string) : Prop :=
  audio_exists w = false \/ os_remove w (audio_path w video_path) = None.

(** A world in which every call succeeds, for the video [talk.mp4] and a
    transcript of the words [ws]. *)
Definition obliging (ws : list Word) : World :=
  {| video_exists := true;
     basename := fun path => path;
     splitext := fun _ => ("talk", ".mp4");
     local_ffmpeg_path := "ffmpeg.exe";
     local_ffmpeg_exists := false;
     os_name_nt := false;
     subprocess_run := fun _ => inr {| returncode := 0; stderr := EmptyString |};
     client_error := None;
     transcribe := fun _ =>
       inr {| status_is_error := false; error := EmptyString; words := ws |};
     audio_exists := true;
     os_remove := fun _ => None;
     open_write := fun _ => None;
     loop_error := OtherException EmptyString |}.

End Process.

(** * Rounding in binary64 *)

Section RoundingFacts.

Local Open Scope Z_scope.

Lemma iter_pos_nat {A : Type} (g : A -> A) (p : positive) :
  forall x, iter_pos g p x = Nat.iter (Pos.to_nat p) g x.
Proof.
  assert (Hcomm : forall n x, Nat.iter n g (g x) = g (Nat.iter n g x)).
  { induction n; intros x; simpl; [reflexivity | rewrite IHn; reflexivity]. }
  induction p as [p IH|p IH|]; intros x; cbn [iter_pos].
  - rewrite !IH, Pos2Nat.inj_xI.
    set (n := Pos.to_nat p).
    replace (S (2 * n)) with (S (n + n)) by lia.
    change (Nat.iter (S (n + n)) g x) with (g (Nat.iter (n + n) g x)).
    rewrite Nat.iter_add, !Hcomm. reflexivity.
  - rewrite !IH, Pos2Nat.inj_xO.
    replace (2 * Pos.to_nat p)%nat with (Pos.to_nat p + Pos.to_nat p)%nat by lia.
    rewrite Nat.iter_add. reflexivity.
  - reflexivity.
Qed.

Lemma shr_inv_init (M : Z) :
  0 <= M -> shr_inv 1 M 0 (Build_shr_record M false false).
Proof.
  intros H. split; [exact H|]. exists 0. cbn [shr_m shr_r shr_s].
  change (2 ^ (0 + 1)) with 2. change (2 ^ 0) with 1.
  split; [lia|]. split; [lia|]. split; [tauto|]. lia.
Qed.

Lemma shr_1_inv (D M k : Z) (mrs : shr_record) :
  0 < D -> 0 <= k -> shr_inv D M k mrs -> shr_inv D M (k + 1) (shr_1 mrs).
Proof.
  intros HD Hk [Hm (t & Ht0 & Ht & Hs & HM)].
  destruct mrs as [m r s]. cbn [shr_m shr_r shr_s] in *.
  assert (Hpow : 2 ^ (k + 1) = 2 * 2 ^ k)
    by (rewrite Z.pow_add_r by lia; change (2 ^ 1) with 2; lia).
  assert (Hpow2 : 2 ^ (k + 1 + 1) = 4 * 2 ^ k)
    by (rewrite !Z.pow_add_r by lia; change (2 ^ 1) with 2; lia).
  assert (Hpos : 0 < 2 ^ k) by (apply Z.pow_pos_nonneg; lia).
  rewrite Hpow in HM.
  set (X := 2 ^ k) in *.
  assert (HDX : 0 < D * X) by (apply Z.mul_pos_pos; assumption).
  assert (Hr : r = true -> exists h, D * X = 2 * h /\ 0 < h).
  { intros ->. destruct (Z.Even_or_Odd (D * X)) as [[h Eh]|[h Eh]].
    - exists h. split; [exact Eh | lia].
    - exfalso. lia. }
  assert (Hcase : exists m' b, m = 2 * m' + (if b : bool then 1 else 0) /\ 0 <= m'
              /\ shr_1 (Build_shr_record m r s) = Build_shr_record m' b (r || s)).
  { destruct m as [|[p|p|]|p]; cbn [shr_1]; try lia.
    - exists 0, false. repeat split; lia.
    - exists (Zpos p), true. repeat split; lia.
    - exists (Zpos p), false. repeat split; lia.
    - exists 0, true. repeat split; lia. }
  destruct Hcase as (m' & b & Em & Hm' & ->).
  unfold shr_inv. cbn [shr_m shr_r shr_s]. rewrite Hpow, Hpow2. fold X.
  subst m.
  split; [exact Hm'|].
  destruct r.
  - destruct (Hr eq_refl) as (h & Eh & Hh).
    exists (h + t). cbn [orb].
    split; [lia|]. split; [lia|]. split; [split; [discriminate | lia]|].
    destruct b; lia.
  - exists t. cbn [orb].
    split; [lia|]. split; [lia|]. split; [exact Hs|].
    destruct b; lia.
Qed.

Lemma shr_iter_inv (D M : Z) (n : nat) :
  0 < D ->
  forall k mrs, 0 <= k -> shr_inv D M k mrs ->
    shr_inv D M (k + Z.of_nat n) (Nat.iter n shr_1 mrs).
Proof.
  intros HD. induction n as [|n IH]; intros k mrs Hk H.
  - simpl. rewrite Z.add_0_r. exact H.
  - rewrite Nat2Z.inj_succ. simpl.
    replace (k + Z.succ (Z.of_nat n)) with (k + Z.of_nat n + 1) by lia.
    apply shr_1_inv; [exact HD | lia |]. apply IH; assumption.
Qed.

Lemma shr_spec (D M e n : Z) (mrs0 : shr_record) :
  0 < D -> shr_inv D M 0 mrs0 ->
  exists mrs,
    shr mrs0 e n = (mrs, e + Z.max 0 n)
    /\ shr_inv D M (Z.max 0 n) mrs.
Proof.
  intros HD H0. destruct n as [|p|p]; cbn [shr].
  - eexists. rewrite Z.add_0_r. split; [reflexivity | exact H0].
  - eexists. split; [reflexivity|]. rewrite iter_pos_nat.
    replace (Z.max 0 (Z.pos p)) with (0 + Z.of_nat (Pos.to_nat p)) by lia.
    apply shr_iter_inv; [exact HD | lia | exact H0].
  - eexists. rewrite Z.add_0_r. split; [reflexivity | exact H0].
Qed.

Lemma shr_exact_spec (M e n : Z) :
  0 <= M ->
  exists mrs,
    shr (Build_shr_record M false false) e n = (mrs, e + Z.max 0 n)
    /\ shr_inv 1 M (Z.max 0 n) mrs.
Proof.
  intros HM. apply shr_spec; [lia | apply shr_inv_init, HM].
Qed.

(** Rounding to nearest, ties to even, of the shifted record. *)
Lemma round_nearest_even_gen (D M k : Z) (mrs : shr_record) :
  0 < D -> 0 <= k -> shr_inv D M k mrs ->
  let q := shr_m mrs in
  let R := round_nearest_even q (loc_of_shr_record mrs) in
  let rem2 := 2 * (M - D * 2 ^ k * q) in
  0 <= q /\ D * 2 ^ k * q <= M < D * 2 ^ k * (q + 1)
  /\ (rem2 < D * 2 ^ k -> R = q)
  /\ (D * 2 ^ k < rem2 -> R = q + 1)
  /\ (rem2 = D * 2 ^ k -> R = if Z.even q then q else q + 1).
Proof.
  intros HD Hk [Hm (t & Ht0 & Ht & Hs & HM)] q R rem2.
  assert (Hpow : 2 ^ (k + 1) = 2 * 2 ^ k)
    by (rewrite Z.pow_add_r by lia; change (2 ^ 1) with 2; lia).
  assert (Hpos : 0 < 2 ^ k) by (apply Z.pow_pos_nonneg; lia).
  rewrite Hpow in HM. subst q R rem2.
  destruct mrs as [m r s]. cbn [shr_m shr_r shr_s] in *.
  set (X := 2 ^ k) in *.
  assert (HDX : 0 < D * X) by (apply Z.mul_pos_pos; assumption).
  split; [exact Hm|]. split; [destruct r; lia|].
  assert (Hst : s = false \/ (s = true /\ 0 < t)).
  { destruct s; [right; split; [reflexivity|] | left; reflexivity].
    destruct (Z.eq_dec t 0) as [E|E]; [|lia].
    apply Hs in E. discriminate. }
  assert (Hts : s = false -> t = 0) by (intros E; apply Hs; exact E).
  destruct r, s; cbn [round_nearest_even loc_of_shr_record];
    try specialize (Hts eq_refl); destruct Hst as [E|[E Htpos]];
    try discriminate; (split; [|split]); intros Hrem; try reflexivity;
    exfalso; lia.
Qed.

Lemma round_nearest_even_spec (M k : Z) (mrs : shr_record) :
  0 <= k -> shr_inv 1 M k mrs ->
  let q := shr_m mrs in
  let R := round_nearest_even q (loc_of_shr_record mrs) in
  0 <= q /\ 2 ^ k * q <= M < 2 ^ k * (q + 1)
  /\ (R = q \/ (R = q + 1 /\ 2 ^ k <= 2 * (M - 2 ^ k * q)))
  /\ (M = 2 ^ k * q -> R = q).
Proof.
  intros Hk Hinv q R.
  destruct (round_nearest_even_gen 1 M k mrs ltac:(lia) Hk Hinv)
    as (Hq0 & Hq & Hlt & Hgt & Htie).
  fold q R in Hq0, Hq, Hlt, Hgt, Htie.
  assert (Hpos : 0 < 2 ^ k) by (apply Z.pow_pos_nonneg; lia).
  set (X := 2 ^ k) in *.
  split; [exact Hq0|]. split; [lia|]. split.
  - destruct (Z.lt_trichotomy (2 * (M - 1 * X * q)) (1 * X)) as [H|[H|H]].
    + left. apply Hlt, H.
    + rewrite (Htie H). destruct (Z.even q); [left; reflexivity|].
      right. split; [reflexivity | lia].
    + right. split; [apply Hgt, H | lia].
  - intros E. apply Hlt. lia.
Qed.

Lemma fexp_eq (x : Z) :
  fexp Binary64.prec Binary64.emax x = Z.max (x - 53) (-1074).
Proof. reflexivity. Qed.

Lemma digits2_pos_bounds (p : positive) :
  2 ^ (Zpos (digits2_pos p) - 1) <= Zpos p < 2 ^ Zpos (digits2_pos p).
Proof.
  induction p as [p IH|p IH|]; cbn [digits2_pos].
  - rewrite Pos2Z.inj_succ.
    replace (Z.succ (Zpos (digits2_pos p)) - 1) with (Zpos (digits2_pos p) - 1 + 1) by lia.
    rewrite Z.pow_succ_r, Z.pow_add_r by lia. change (2 ^ 1) with 2. lia.
  - rewrite Pos2Z.inj_succ.
    replace (Z.succ (Zpos (digits2_pos p)) - 1) with (Zpos (digits2_pos p) - 1 + 1) by lia.
    rewrite Z.pow_succ_r, Z.pow_add_r by lia. change (2 ^ 1) with 2. lia.
  - simpl. lia.
Qed.

Lemma pow2_lt_exp (a b : Z) : 0 <= b -> 2 ^ a < 2 ^ b -> a < b.
Proof. intros Hb H. apply (Z.pow_lt_mono_r_iff 2); [lia | exact Hb | exact H]. Qed.

(** digits of a positive number below a power of two *)
Lemma digits2_pos_le (p : positive) (b : Z) :
  0 <= b -> Zpos p < 2 ^ b -> Zpos (digits2_pos p) <= b.
Proof.
  intros Hb H. pose proof (digits2_pos_bounds p) as [Hlo _].
  assert (2 ^ (Zpos (digits2_pos p) - 1) < 2 ^ b) by lia.
  apply pow2_lt_exp in H0; lia.
Qed.

Lemma pow2_split (a b : Z) : 0 <= a -> 0 <= b -> 2 ^ (a + b) = 2 ^ a * 2 ^ b.
Proof. intros. apply Z.pow_add_r; assumption. Qed.

Lemma digits2_pos_unique (p : positive) (d : Z) :
  2 ^ (d - 1) <= Zpos p < 2 ^ d -> Zpos (digits2_pos p) = d.
Proof.
  intros [Hlo Hhi]. pose proof (digits2_pos_bounds p) as [Hlo' Hhi'].
  assert (Hd : 0 < d).
  { destruct (Z_lt_le_dec 0 d) as [H|H]; [exact H|].
    exfalso. destruct (Z.eq_dec d 0) as [->|Hn].
    - change (2 ^ 0) with 1 in Hhi. lia.
    - rewrite (Z.pow_neg_r 2 d) in Hhi by lia. lia. }
  assert (H1 : d - 1 < Zpos (digits2_pos p)).
  { apply pow2_lt_exp; lia. }
  assert (H2 : Zpos (digits2_pos p) - 1 < d).
  { apply pow2_lt_exp; lia. }
  lia.
Qed.


Lemma round_aux_below (P : positive) (E Cst : Z) :
  E <= -43 ->
  -1117 <= E ->
  Zpos (digits2_pos P) + E <= 10 ->
  Zpos (digits2_pos P) - 53 <= 53 ->
  2 ^ 53 < 2 * Cst ->
  Zpos P <= 1000 * 2 ^ (- E) - Cst ->
  below_1000 (binary_round_aux Binary64.prec Binary64.emax false (Zpos P) E loc_Exact).
Proof.
  intros HE HElo HdP Hn53 HC HP.
  unfold binary_round_aux, shr_fexp. cbn [shr_record_of_loc Zdigits2].
  rewrite fexp_eq.
  set (n1 := Z.max (Zpos (digits2_pos P) + E - 53) (-1074) - E).
  destruct (shr_exact_spec (Zpos P) E n1 ltac:(lia)) as (mrs1 & -> & Hinv1).
  assert (Hn1 : 0 <= Z.max 0 n1 <= 53) by (unfold n1; lia).
  set (k1 := Z.max 0 n1) in *.
  set (E1 := E + k1).
  assert (HE1 : -1074 <= E1 <= -43) by (unfold E1, k1, n1; lia).
  destruct (round_nearest_even_spec (Zpos P) k1 mrs1 ltac:(lia) Hinv1)
    as (Hq0 & Hq & HR & _).
  set (q := shr_m mrs1) in *.
  set (R := round_nearest_even q (loc_of_shr_record mrs1)) in *.
  assert (HX : 0 < 2 ^ k1 <= 2 ^ 53).
  { split; [apply Z.pow_pos_nonneg; lia | apply Z.pow_le_mono_r; lia]. }
  assert (HT : 1000 * 2 ^ (- E) = 1000 * 2 ^ (- E1) * 2 ^ k1).
  { replace (- E) with (- E1 + k1) by (unfold E1; lia).
    rewrite pow2_split by lia. ring. }
  set (T := 1000 * 2 ^ (- E1)) in *.
  set (X := 2 ^ k1) in *.
  assert (HRT : 0 <= R < T).
  { destruct HR as [->|[-> Hhalf]]; split; try lia.
    - apply (Z.mul_lt_mono_pos_l X); lia.
    - apply (Z.mul_lt_mono_pos_l X); lia. }
  clearbody R. clear Hq HR HP Hinv1.
  rewrite fexp_eq.
  set (n2 := Z.max (Zdigits2 R + E1 - 53) (-1074) - E1).
  destruct (shr_exact_spec R E1 n2 ltac:(lia)) as (mrs2 & -> & Hinv2).
  set (k2 := Z.max 0 n2) in *.
  destruct (round_nearest_even_spec R k2 mrs2 ltac:(lia) Hinv2)
    as (Hm0 & Hm & _).
  set (m2 := shr_m mrs2) in *.
  destruct m2 as [|m|m] eqn:Em2.
  - left. reflexivity.
  - right.
    assert (HRpos : 0 < R).
    { assert (0 < 2 ^ k2) by (apply Z.pow_pos_nonneg; lia). nia. }
    assert (HdR : Zdigits2 R + E1 <= 10).
    { destruct R as [|r|r]; try lia. cbn [Zdigits2].
      assert (Zpos (digits2_pos r) <= 10 - E1); [|lia].
      apply digits2_pos_le; [lia|].
      replace (10 - E1) with (10 + - E1) by lia.
      rewrite pow2_split by lia. change (2 ^ 10) with 1024.
      assert (0 < 2 ^ (- E1)) by (apply Z.pow_pos_nonneg; lia).
      unfold T in HRT. lia. }
    assert (HE2 : E1 + k2 <= -43) by (unfold k2, n2; lia).
    replace (E1 + k2 <=? Binary64.emax - Binary64.prec) with true
      by (symmetry; apply Z.leb_le; unfold Binary64.emax, Binary64.prec; lia).
    exists m, (E1 + k2). split; [reflexivity|]. split; [lia|].
    assert (HX2 : 0 < 2 ^ k2) by (apply Z.pow_pos_nonneg; lia).
    assert (HT2 : T = 1000 * 2 ^ (- (E1 + k2)) * 2 ^ k2).
    { unfold T. replace (- E1) with (- (E1 + k2) + k2) by lia.
      rewrite pow2_split by lia. ring. }
    apply (Z.mul_lt_mono_pos_l (2 ^ k2)); [exact HX2|]. lia.
  - lia.
Qed.

Lemma binary_round_aux_canonical (s : bool) (m : positive) (e : Z) :
  Z.max (Zpos (digits2_pos m) + e - 53) (-1074) = e ->
  e <= 971 ->
  binary_round_aux Binary64.prec Binary64.emax s (Zpos m) e loc_Exact
  = S754_finite s m e.
Proof.
  intros Hcan He.
  unfold binary_round_aux, shr_fexp. cbn [shr_record_of_loc Zdigits2].
  rewrite fexp_eq, Hcan, Z.sub_diag.
  cbn [shr shr_m loc_of_shr_record round_nearest_even Zdigits2].
  rewrite fexp_eq, Hcan, Z.sub_diag.
  cbn [shr shr_m].
  replace (e <=? Binary64.emax - Binary64.prec) with true
    by (symmetry; apply Z.leb_le; unfold Binary64.emax, Binary64.prec; lia).
  reflexivity.
Qed.

Lemma iter_xO_spec (m d : positive) :
  Zpos (Pos.iter xO m d) = Zpos m * 2 ^ Zpos d.
Proof.
  induction d as [|d IH] using Pos.peano_ind.
  - cbn [Pos.iter]. change (2 ^ 1) with 2. lia.
  - rewrite Pos.iter_succ, Pos2Z.inj_succ, Z.pow_succ_r by lia.
    rewrite Pos2Z.inj_xO, IH. ring.
Qed.

Lemma digits2_pos_shift (m m' : positive) (d : Z) :
  0 <= d -> Zpos m' = Zpos m * 2 ^ d ->
  Zpos (digits2_pos m') = Zpos (digits2_pos m) + d.
Proof.
  intros Hd E. apply digits2_pos_unique. rewrite E.
  pose proof (digits2_pos_bounds m) as [Hlo Hhi].
  assert (0 < 2 ^ d) by (apply Z.pow_pos_nonneg; lia).
  replace (Zpos (digits2_pos m) + d - 1) with (Zpos (digits2_pos m) - 1 + d) by lia.
  rewrite !pow2_split by lia. nia.
Qed.

(** Rounding a number that needs no rounding: the mantissa is only
    shifted left to its canonical exponent. *)
Lemma binary_round_exact (s : bool) (m : positive) (e : Z) :
  let e' := Z.max (Zpos (digits2_pos m) + e - 53) (-1074) in
  e' <= e -> e' <= 971 ->
  exists m',
    binary_round Binary64.prec Binary64.emax s m e = S754_finite s m' e'
    /\ Zpos m' = Zpos m * 2 ^ (e - e').
Proof.
  intros e' Hle Hmax.
  unfold binary_round, shl_align. rewrite fexp_eq. fold e'.
  destruct (e' - e) as [|d|d] eqn:Ed; try lia.
  - assert (e' = e) by lia. exists m.
    replace (e - e') with 0 by lia. split; [|change (2 ^ 0) with 1; lia].
    rewrite binary_round_aux_canonical; [congruence | unfold e' in *; lia | lia].
  - exists (Pos.iter xO m d).
    assert (Em : Zpos (Pos.iter xO m d) = Zpos m * 2 ^ (e - e')).
    { rewrite iter_xO_spec. f_equal. f_equal. lia. }
    split; [|exact Em].
    apply binary_round_aux_canonical; [|exact Hmax].
    rewrite (digits2_pos_shift m _ (e - e') ltac:(lia) Em). unfold e'. lia.
Qed.

Lemma shr_m_of_loc (m : Z) (l : location) : shr_m (shr_record_of_loc m l) = m.
Proof. destruct l as [|[| |]]; reflexivity. Qed.

Lemma Zdigits2_bounds (x : Z) :
  0 < x -> 2 ^ (Zdigits2 x - 1) <= x < 2 ^ Zdigits2 x.
Proof.
  intros H. destruct x as [|p|p]; try lia. apply digits2_pos_bounds.
Qed.

Lemma Zdigits2_unique (x d : Z) :
  2 ^ (d - 1) <= x < 2 ^ d -> 0 < x -> Zdigits2 x = d.
Proof.
  intros H Hx. destruct x as [|p|p]; try lia. apply digits2_pos_unique, H.
Qed.

(** The record the division hands to the rounding. *)
Lemma div_record_inv (M : Z) :
  0 <= M ->
  shr_inv 1000 M 0
    (shr_record_of_loc (M / 1000) (new_location 1000 (M mod 1000))).
Proof.
  intros HM.
  pose proof (Z.div_mod M 1000 ltac:(lia)) as Hdm.
  pose proof (Z.mod_pos_bound M 1000 ltac:(lia)) as Hmod.
  assert (Hq : 0 <= M / 1000) by (apply Z.div_pos; lia).
  unfold new_location. change (Z.even 1000) with true. cbv iota.
  unfold new_location_even.
  set (q := M / 1000) in *. set (r := M mod 1000) in *.
  unfold shr_inv. rewrite shr_m_of_loc. split; [exact Hq|].
  change (2 ^ (0 + 1)) with 2. change (2 ^ 0) with 1.
  destruct (r =? 0) eqn:Er0.
  - apply Z.eqb_eq in Er0. exists 0. cbn [shr_record_of_loc shr_r shr_s].
    split; [lia|]. split; [lia|]. split; [tauto|]. lia.
  - apply Z.eqb_neq in Er0.
    destruct (Z.compare_spec (2 * r) 1000) as [E|E|E];
      cbn [shr_record_of_loc shr_r shr_s].
    + exists 0. split; [lia|]. split; [lia|]. split; [tauto|]. lia.
    + exists r. split; [lia|]. split; [lia|].
      split; [split; [discriminate | lia]|]. lia.
    + exists (r - 500). split; [lia|]. split; [lia|].
      split; [split; [discriminate | lia]|]. lia.
Qed.

(** Rounding a quotient of at least 53 digits: the digits beyond the 53rd
    are shifted out, the rest is rounded to nearest, ties to even, and a
    carry into a 54th digit is shifted out in turn. *)
Lemma binary_round_aux_normal (sx : bool) (D M q0 e' : Z) (loc : location) :
  0 < D ->
  shr_inv D M 0 (shr_record_of_loc q0 loc) ->
  2 ^ 52 <= q0 -> -1074 <= e' ->
  exists k q R m e,
    0 <= k /\ 2 ^ 52 <= q < 2 ^ 53
    /\ D * 2 ^ k * q <= M < D * 2 ^ k * (q + 1)
    /\ (2 * (M - D * 2 ^ k * q) < D * 2 ^ k -> R = q)
    /\ (D * 2 ^ k < 2 * (M - D * 2 ^ k * q) -> R = q + 1)
    /\ (2 * (M - D * 2 ^ k * q) = D * 2 ^ k ->
        R = if Z.even q then q else q + 1)
    /\ q <= R <= q + 1
    /\ ((R < 2 ^ 53 /\ m = R /\ e = e' + k)
        \/ (R = 2 ^ 53 /\ m = 2 ^ 52 /\ e = e' + k + 1))
    /\ binary_round_aux Binary64.prec Binary64.emax sx q0 e' loc
       = if e <=? 971 then S754_finite sx (Z.to_pos m) e
         else S754_infinity sx.
Proof.
  intros HD Hinv0 Hq0 He'.
  assert (Hq0pos : 0 < q0) by (assert (0 < 2 ^ 52) by reflexivity; lia).
  pose proof (Zdigits2_bounds q0 Hq0pos) as [Hdlo Hdhi].
  assert (Hd53 : 53 <= Zdigits2 q0).
  { assert (52 < Zdigits2 q0); [|lia]. apply pow2_lt_exp.
    - destruct q0; simpl; lia.
    - lia. }
  (* the bracket of the unshifted record *)
  destruct (round_nearest_even_gen D M 0 _ HD ltac:(lia) Hinv0)
    as (_ & Hbr0 & _).
  rewrite shr_m_of_loc in Hbr0. change (2 ^ 0) with 1 in Hbr0.
  unfold binary_round_aux, shr_fexp. rewrite fexp_eq.
  set (k := Zdigits2 q0 - 53).
  replace (Z.max (Zdigits2 q0 + e' - 53) (-1074) - e') with k by (unfold k; lia).
  destruct (shr_spec D M e' k _ HD Hinv0) as (mrs1 & -> & Hinv1).
  replace (Z.max 0 k) with k in * by (unfold k; lia).
  assert (Hk : 0 <= k) by (unfold k; lia).
  destruct (round_nearest_even_gen D M k mrs1 HD Hk Hinv1)
    as (Hq0' & Hbr & Hlt & Hgt & Htie).
  set (q := shr_m mrs1) in *.
  set (R := round_nearest_even q (loc_of_shr_record mrs1)) in *.
  assert (HX : 0 < 2 ^ k) by (apply Z.pow_pos_nonneg; lia).
  assert (Hsplit : 2 ^ Zdigits2 q0 = 2 ^ k * 2 ^ 53).
  { rewrite <- pow2_split by lia. f_equal. unfold k. lia. }
  assert (Hsplit' : 2 ^ (Zdigits2 q0 - 1) = 2 ^ k * 2 ^ 52).
  { rewrite <- pow2_split by lia. f_equal. unfold k. lia. }
  rewrite Hsplit in Hdhi. rewrite Hsplit' in Hdlo.
  set (X := 2 ^ k) in *.
  assert (Hq : 2 ^ 52 <= q < 2 ^ 53).
  { change (2 ^ 52) with 4503599627370496 in *.
    change (2 ^ 53) with 9007199254740992 in *.
    assert (HDX : 0 < D * X) by (apply Z.mul_pos_pos; assumption).
    assert (H1 : D * (X * 4503599627370496) <= D * q0)
      by (apply Z.mul_le_mono_nonneg_l; lia).
    assert (H2 : D * (q0 + 1) <= D * (X * 9007199254740992))
      by (apply Z.mul_le_mono_nonneg_l; lia).
    split.
    - assert (H3 : D * X * 4503599627370496 < D * X * (q + 1))
        by (clear - H1 Hbr0 Hbr; lia).
      assert (4503599627370496 < q + 1); [|lia].
      apply (Z.mul_lt_mono_pos_l (D * X)); [exact HDX | exact H3].
    - assert (H3 : D * X * q < D * X * 9007199254740992)
        by (clear - H2 Hbr0 Hbr; lia).
      apply (Z.mul_lt_mono_pos_l (D * X)); [exact HDX | exact H3]. }
  assert (HR : q <= R <= q + 1).
  { destruct (Z.lt_trichotomy (2 * (M - D * X * q)) (D * X)) as [H|[H|H]].
    - rewrite (Hlt H). lia.
    - rewrite (Htie H). destruct (Z.even q); lia.
    - rewrite (Hgt H). lia. }
  assert (HE1 : -1074 <= e' + k) by lia.
  clearbody R.
  rewrite fexp_eq.
  destruct (Z_lt_le_dec R (2 ^ 53)) as [Hsmall|Hbig].
  - (* no carry *)
    assert (HdR : Zdigits2 R = 53).
    { apply Zdigits2_unique; [|lia]. change (53 - 1) with 52. lia. }
    rewrite HdR.
    replace (Z.max (53 + (e' + k) - 53) (-1074) - (e' + k)) with 0 by lia.
    cbn [shr shr_record_of_loc shr_m].
    exists k, q, R, R, (e' + k).
    split; [exact Hk|]. split; [exact Hq|]. split; [exact Hbr|].
    split; [exact Hlt|]. split; [exact Hgt|]. split; [exact Htie|].
    split; [exact HR|]. split; [left; repeat split; lia|].
    destruct R as [|r|r]; try lia. reflexivity.
  - (* a carry: R is 2^53 *)
    assert (ER : R = 2 ^ 53) by lia.
    exists k, q, R, (2 ^ 52), (e' + k + 1).
    split; [exact Hk|]. split; [exact Hq|]. split; [exact Hbr|].
    split; [exact Hlt|]. split; [exact Hgt|]. split; [exact Htie|].
    split; [exact HR|]. split; [right; repeat split; lia|].
    rewrite ER. change (Zdigits2 (2 ^ 53)) with 54.
    replace (Z.max (54 + (e' + k) - 53) (-1074) - (e' + k)) with 1 by lia.
    cbn [shr shr_record_of_loc iter_pos]. reflexivity.
Qed.

End RoundingFacts.

(** * The operations of [format_srt_time] *)

Section FormatTimeFacts.

Local Open Scope Z_scope.

Lemma mul_1000_below (mf : positive) (ef : Z) :
  Zpos (digits2_pos mf) <= 53 ->
  -1074 <= ef ->
  Zpos mf < 2 ^ (- ef) ->
  below_1000 (Binary64.mul (S754_finite false mf ef) (Binary64.of_int 1000)).
Proof.
  intros Hd Hef Hlt.
  change (Binary64.of_int 1000) with (S754_finite false 8796093022208000 (-43)).
  unfold Binary64.mul, SFmul. cbn [xorb].
  assert (Hneg : ef < 0).
  { destruct (Z_lt_le_dec ef 0) as [H|H]; [exact H|]. exfalso.
    destruct (Z.eq_dec ef 0) as [->|Hn].
    - change (2 ^ (- 0)) with 1 in Hlt. lia.
    - rewrite (Z.pow_neg_r 2 (- ef)) in Hlt by lia. lia. }
  pose proof (digits2_pos_bounds mf) as [Hlo Hhi].
  assert (Hdmf : Zpos (digits2_pos mf) <= - ef) by (apply digits2_pos_le; lia).
  assert (HdP : Zpos (digits2_pos (mf * 8796093022208000))
                <= Zpos (digits2_pos mf) + 53).
  { apply digits2_pos_le; [lia|]. rewrite pow2_split by lia.
    rewrite Pos2Z.inj_mul. change (2 ^ 53) with 9007199254740992. nia. }
  apply round_aux_below with (Cst := 8796093022208000);
    [lia | lia | lia | lia | reflexivity | ].
  replace (- (ef + -43)) with (43 + - ef) by lia.
    rewrite pow2_split by lia. change (2 ^ 43) with 8796093022208.
  rewrite Pos2Z.inj_mul. nia.
Qed.

Lemma below_1000_to_int (x : spec_float) :
  below_1000 x -> exists n, Binary64.to_int x = Some n /\ 0 <= n < 1000.
Proof.
  intros [->|(m & e & -> & He & Hm)].
  - exists 0. split; [reflexivity | lia].
  - eexists. split; [reflexivity|]. cbn [cond_Zopp].
    destruct (Z.eq_dec e 0) as [->|Hn].
    + change (2 ^ (- 0)) with 1 in Hm. rewrite Z.shiftl_0_r. lia.
    + replace (Z.shiftl (Zpos m) e) with (Zpos m / 2 ^ (- e))
        by (rewrite <- Z.shiftr_div_pow2 by lia; unfold Z.shiftr;
            rewrite Z.opp_involutive; reflexivity).
      assert (0 < 2 ^ (- e)) by (apply Z.pow_pos_nonneg; lia).
      split; [apply Z.div_pos; lia|].
      apply Z.div_lt_upper_bound; lia.
Qed.

Lemma bounded_spec (m : positive) (e : Z) :
  bounded Binary64.prec Binary64.emax m e = true ->
  Z.max (Zpos (digits2_pos m) + e - 53) (-1074) = e /\ e <= 971.
Proof.
  unfold bounded, canonical_mantissa. rewrite andb_true_iff, fexp_eq.
  rewrite Z.eqb_eq, Z.leb_le. unfold Binary64.emax, Binary64.prec. lia.
Qed.

(** An integer mantissa with trailing zeros rounds to itself. *)
Lemma binary_round_aux_shifted (s : bool) (w m : positive) (e : Z) :
  0 <= e -> Zpos w = Zpos m * 2 ^ e ->
  Z.max (Zpos (digits2_pos m) + e - 53) (-1074) = e -> e <= 971 ->
  binary_round_aux Binary64.prec Binary64.emax s (Zpos w) 0 loc_Exact
  = S754_finite s m e.
Proof.
  intros He Ew Hcan Hmax.
  unfold binary_round_aux, shr_fexp. cbn [shr_record_of_loc Zdigits2].
  rewrite fexp_eq.
  rewrite (digits2_pos_shift m w e He Ew).
  replace (Z.max (Zpos (digits2_pos m) + e + 0 - 53) (-1074) - 0) with e by lia.
  destruct (shr_exact_spec (Zpos w) 0 e ltac:(lia)) as (mrs1 & -> & Hinv1).
  replace (Z.max 0 e) with e in * by lia.
  destruct (round_nearest_even_spec (Zpos w) e mrs1 He Hinv1)
    as (Hq0 & Hq & _ & Hexact).
  assert (Hpos : 0 < 2 ^ e) by (apply Z.pow_pos_nonneg; lia).
  assert (Eq : shr_m mrs1 = Zpos m) by nia.
  rewrite Hexact by (rewrite Eq; lia).
  rewrite Eq. cbn [Zdigits2]. rewrite fexp_eq.
  replace (Z.max (Zpos (digits2_pos m) + (0 + e) - 53) (-1074) - (0 + e))
    with 0 by lia.
  cbn [shr shr_m shr_record_of_loc].
  replace (0 + e <=? Binary64.emax - Binary64.prec) with true
    by (symmetry; apply Z.leb_le; unfold Binary64.emax, Binary64.prec; lia).
  reflexivity.
Qed.

Lemma shiftl_neg (m : positive) (e : Z) :
  e < 0 -> Z.shiftl (Zpos m) e = Zpos m / 2 ^ (- e).
Proof.
  intros He. rewrite <- Z.shiftr_div_pow2 by lia. unfold Z.shiftr.
  rewrite Z.opp_involutive. reflexivity.
Qed.

Lemma frac_of_finite (m : positive) (e : Z) :
  bounded Binary64.prec Binary64.emax m e = true ->
  exists whole,
    Binary64.to_int (S754_finite false m e) = Some whole
    /\ 0 <= whole
    /\ small_frac (Binary64.sub (S754_finite false m e) (Binary64.of_int whole)).
Proof.
  intros Hb. apply bounded_spec in Hb. destruct Hb as [Hcan Hmax].
  pose proof (digits2_pos_bounds m) as [Hlo Hhi].
  eexists. split; [reflexivity|]. cbn [cond_Zopp].
  destruct (Z_lt_le_dec e 0) as [Hneg|Hnn].
  - (* a fractional part may remain *)
    rewrite shiftl_neg by exact Hneg.
    set (k := - e) in *.
    assert (HX : 0 < 2 ^ k) by (apply Z.pow_pos_nonneg; lia).
    pose proof (Z.div_mod (Zpos m) (2 ^ k) ltac:(lia)) as Hdm.
    pose proof (Z.mod_pos_bound (Zpos m) (2 ^ k) HX) as Hmod.
    assert (Hw0 : 0 <= Zpos m / 2 ^ k) by (apply Z.div_pos; lia).
    split; [exact Hw0|].
    destruct (Zpos m / 2 ^ k) as [|w|w] eqn:Ew; [| |lia].
    + (* below one second *)
      right. exists m, e. split; [reflexivity|].
      split; [lia|]. split; [lia|]. fold k. lia.
    + (* a normal number with 53 digits *)
      assert (Hk : k < Zpos (digits2_pos m)).
      { apply pow2_lt_exp; [lia|]. nia. }
      assert (Hdm53 : Zpos (digits2_pos m) = 53) by lia.
      rewrite Hdm53 in Hlo, Hhi.
      assert (Hdw : Zpos (digits2_pos w) = 53 - k).
      { apply digits2_pos_unique. rewrite <- Ew. split.
        - apply Z.div_le_lower_bound; [lia|].
          rewrite <- pow2_split by lia. replace (k + (53 - k - 1)) with (53 - 1) by lia.
          exact Hlo.
        - apply Z.div_lt_upper_bound; [lia|].
          rewrite <- pow2_split by lia. replace (k + (53 - k)) with 53 by lia.
          exact Hhi. }
      unfold Binary64.of_int, binary_normalize.
      destruct (binary_round_exact false w 0) as (w' & -> & Ew');
        [rewrite Hdw; lia | rewrite Hdw; lia |].
      rewrite Hdw in Ew' |- *.
      replace (Z.max (53 - k + 0 - 53) (-1074)) with e in * by lia.
      replace (0 - e) with k in Ew' by lia.
      unfold Binary64.sub, SFsub. rewrite Z.min_id.
      unfold shl_align. rewrite Z.sub_diag. cbn [fst cond_Zopp].
      rewrite Ew'.
      replace (Zpos m - Zpos w * 2 ^ k) with (Zpos m mod 2 ^ k) by lia.
      destruct (Zpos m mod 2 ^ k) as [|r|r] eqn:Er; [| |lia].
      * left. reflexivity.
      * right. cbn [binary_normalize].
        assert (Hdr : Zpos (digits2_pos r) <= k) by (apply digits2_pos_le; lia).
        destruct (binary_round_exact false r e) as (mf & -> & Emf); [lia | lia |].
        set (ef := Z.max (Zpos (digits2_pos r) + e - 53) (-1074)) in *.
        exists mf, ef. split; [reflexivity|].
        assert (Hsh : 0 <= e - ef) by (unfold ef; lia).
        split; [rewrite (digits2_pos_shift r mf (e - ef) Hsh Emf); unfold ef; lia|].
        split; [unfold ef; lia|].
        rewrite Emf. replace (- ef) with (k + (e - ef)) by lia.
        rewrite pow2_split by lia.
        assert (0 < 2 ^ (e - ef)) by (apply Z.pow_pos_nonneg; lia). nia.
  - (* an integer *)
    rewrite Z.shiftl_mul_pow2 by exact Hnn.
    assert (HX : 0 < 2 ^ e) by (apply Z.pow_pos_nonneg; lia).
    split; [nia|].
    destruct (Zpos m * 2 ^ e) as [|w|w] eqn:Ew; [nia| |nia].
    left. unfold Binary64.of_int, binary_normalize, binary_round, shl_align.
    apply eq_sym in Ew.
    rewrite fexp_eq, (digits2_pos_shift m w e Hnn Ew).
    replace (Z.max (Zpos (digits2_pos m) + e + 0 - 53) (-1074) - 0) with e by lia.
    assert (Eaux : binary_round_aux Binary64.prec Binary64.emax false (Zpos w) 0 loc_Exact
                   = S754_finite false m e)
      by (apply binary_round_aux_shifted; assumption).
    destruct e as [|p|p]; [| |lia]; rewrite Eaux;
      unfold Binary64.sub, SFsub; rewrite Z.min_id;
      unfold shl_align; rewrite Z.sub_diag; cbn [fst cond_Zopp];
      reflexivity.
Qed.

Lemma string_length_app (s1 s2 : string) :
  String.length (s1 ++ s2) = (String.length s1 + String.length s2)%nat.
Proof. induction s1 as [|c s1 IH]; simpl; [reflexivity | rewrite IH; reflexivity]. Qed.

Lemma to_int_trunc (m : positive) (e : Z) :
  exists n,
    Binary64.to_int (S754_finite false m e) = Some n
    /\ (inject_Z n <= Binary64.to_Q (S754_finite false m e))%Q
    /\ (Binary64.to_Q (S754_finite false m e) < inject_Z n + 1)%Q.
Proof.
  eexists. split; [reflexivity|]. cbn [cond_Zopp Binary64.to_Q].
  destruct e as [|p|p].
  - rewrite Z.shiftl_0_r. change (2 ^ 0) with 1. rewrite Z.mul_1_r.
    unfold Qle, Qlt. simpl. lia.
  - rewrite Z.shiftl_mul_pow2 by lia. unfold Qle, Qlt. simpl. lia.
  - rewrite shiftl_neg by lia.
    unfold Qle, Qlt. cbn [Qnum Qden inject_Z Qplus].
    rewrite Pos2Z.inj_pow. change (- Z.neg p) with (Zpos p).
    assert (HX : 0 < 2 ^ Zpos p) by (apply Z.pow_pos_nonneg; lia).
    pose proof (Z.div_mod (Zpos m) (2 ^ Zpos p) ltac:(lia)).
    pose proof (Z.mod_pos_bound (Zpos m) (2 ^ Zpos p) HX).
    change (Zpos (1 * 1)) with 1. nia.
Qed.

Lemma zeros_length (k : nat) : String.length (zeros k) = k.
Proof. induction k as [|k IH]; simpl; [reflexivity | f_equal; exact IH]. Qed.

Lemma format_d_min_width (width : nat) (n : Z) :
  0 <= n -> (width <= String.length (format_d width n))%nat.
Proof.
  intros Hn. unfold format_d.
  replace (n <? 0) with false by (symmetry; apply Z.ltb_ge; exact Hn).
  rewrite string_length_app, zeros_length. lia.
Qed.

Lemma below_check (P : Z -> bool) (N : nat) :
  forallb P (map Z.of_nat (seq 0 N)) = true ->
  forall n, 0 <= n < Z.of_nat N -> P n = true.
Proof.
  intros H n Hn. rewrite forallb_forall in H. apply H.
  apply in_map_iff. exists (Z.to_nat n). split; [lia|].
  apply in_seq. lia.
Qed.

Lemma format_d_2_length (n : Z) :
  0 <= n < 100 -> String.length (format_d 2 n) = 2%nat.
Proof.
  intros Hn. apply Nat.eqb_eq.
  apply (below_check (fun n => (String.length (format_d 2 n) =? 2)%nat) 100);
    [vm_compute; reflexivity | exact Hn].
Qed.

Lemma format_d_3_length (n : Z) :
  0 <= n < 1000 -> String.length (format_d 3 n) = 3%nat.
Proof.
  intros Hn. apply Nat.eqb_eq.
  apply (below_check (fun n => (String.length (format_d 3 n) =? 3)%nat) 1000);
    [vm_compute; reflexivity | exact Hn].
Qed.

Lemma millisec_of_frac (x : spec_float) :
  small_frac x ->
  below_1000 (Binary64.mul x (Binary64.of_int 1000)).
Proof.
  intros [->|(mf & ef & -> & Hd & Hef & Hlt)].
  - left. reflexivity.
  - apply mul_1000_below; assumption.
Qed.

End FormatTimeFacts.

(** * Division by 1000 *)

Section DivisionFacts.

Local Open Scope Z_scope.

Lemma SFdiv_core_1000 (x : positive) :
  let e' := Z.min (Z.max (Zpos (digits2_pos x) - 63) (-1074)) 0 in
  let M := Zpos x * 2 ^ (- e') in
  SFdiv_core_binary Binary64.prec Binary64.emax (Zpos x) 0 1000 0
  = (M / 1000, e', new_location 1000 (M mod 1000)).
Proof.
  intros e' M. unfold SFdiv_core_binary. cbn [Zdigits2].
  change (digits2_pos 1000) with 10%positive. rewrite fexp_eq.
  replace (Z.max (Zpos (digits2_pos x) + 0 - (10 + 0) - 53) (-1074))
    with (Z.max (Zpos (digits2_pos x) - 63) (-1074)) by lia.
  change (0 - 0) with 0. fold e'.
  assert (EM : match 0 - e' with
               | Zpos _ => Z.shiftl (Zpos x) (0 - e')
               | Z0 => Zpos x
               | Zneg _ => 0
               end = M).
  { unfold M. destruct (0 - e') as [|p|p] eqn:E.
    - replace (- e') with 0 by lia. change (2 ^ 0) with 1. lia.
    - rewrite Z.shiftl_mul_pow2 by lia. f_equal. f_equal. lia.
    - unfold e' in E. lia. }
  rewrite EM. unfold Z.div, Z.modulo.
  destruct (Z.div_eucl M 1000) as [q r]. reflexivity.
Qed.

(** The quotient of a non-zero integer by 1000, as the loop's divisions
    and the time stamps have it. *)
Lemma true_div_1000_round (a : Z) :
  a <> 0 ->
  exists s k q R m e,
    0 <= s /\ 0 <= k /\ 2 ^ 52 <= q < 2 ^ 53
    /\ 1000 * 2 ^ k * q <= Z.abs a * 2 ^ s < 1000 * 2 ^ k * (q + 1)
    /\ (2 * (Z.abs a * 2 ^ s - 1000 * 2 ^ k * q) < 1000 * 2 ^ k -> R = q)
    /\ (1000 * 2 ^ k < 2 * (Z.abs a * 2 ^ s - 1000 * 2 ^ k * q) -> R = q + 1)
    /\ (2 * (Z.abs a * 2 ^ s - 1000 * 2 ^ k * q) = 1000 * 2 ^ k ->
        R = if Z.even q then q else q + 1)
    /\ q <= R <= q + 1
    /\ ((R < 2 ^ 53 /\ m = R /\ e = k - s)
        \/ (R = 2 ^ 53 /\ m = 2 ^ 52 /\ e = k - s + 1))
    /\ Binary64.true_div a 1000
       = if e <=? 971 then S754_finite (a <? 0) (Z.to_pos m) e
         else S754_infinity (a <? 0).
Proof.
  intros Ha.
  assert (Hgen : forall (x : positive) (sx : bool),
             exists s k q R m e,
               0 <= s /\ 0 <= k /\ 2 ^ 52 <= q < 2 ^ 53
               /\ 1000 * 2 ^ k * q <= Zpos x * 2 ^ s < 1000 * 2 ^ k * (q + 1)
               /\ (2 * (Zpos x * 2 ^ s - 1000 * 2 ^ k * q) < 1000 * 2 ^ k -> R = q)
               /\ (1000 * 2 ^ k < 2 * (Zpos x * 2 ^ s - 1000 * 2 ^ k * q) -> R = q + 1)
               /\ (2 * (Zpos x * 2 ^ s - 1000 * 2 ^ k * q) = 1000 * 2 ^ k ->
                   R = if Z.even q then q else q + 1)
               /\ q <= R <= q + 1
               /\ ((R < 2 ^ 53 /\ m = R /\ e = k - s)
                   \/ (R = 2 ^ 53 /\ m = 2 ^ 52 /\ e = k - s + 1))
               /\ (let '(mz, ez, lz) :=
                     SFdiv_core_binary Binary64.prec Binary64.emax (Zpos x) 0 1000 0 in
                   binary_round_aux Binary64.prec Binary64.emax sx mz ez lz)
                  = if e <=? 971 then S754_finite sx (Z.to_pos m) e
                    else S754_infinity sx).
  { intros x sx. rewrite SFdiv_core_1000.
    set (e' := Z.min (Z.max (Zpos (digits2_pos x) - 63) (-1074)) 0).
    set (M := Zpos x * 2 ^ (- e')).
    pose proof (digits2_pos_bounds x) as [Hlo Hhi].
    assert (HM : 2 ^ 62 <= M).
    { unfold M. destruct (Z_le_gt_dec (Zpos (digits2_pos x)) 63) as [Hd|Hd].
      - replace (- e') with (63 - Zpos (digits2_pos x)) by (unfold e'; lia).
        replace 62 with ((Zpos (digits2_pos x) - 1) + (63 - Zpos (digits2_pos x))) by lia.
        rewrite pow2_split by lia.
        apply Z.mul_le_mono_nonneg_r; [apply Z.pow_nonneg; lia | exact Hlo].
      - replace (- e') with 0 by (unfold e'; lia). change (2 ^ 0) with 1.
        assert (2 ^ 62 <= 2 ^ (Zpos (digits2_pos x) - 1))
          by (apply Z.pow_le_mono_r; lia).
        lia. }
    assert (Hq0 : 2 ^ 52 <= M / 1000).
    { apply Z.div_le_lower_bound; [lia|].
      change (2 ^ 52) with 4503599627370496.
      change (2 ^ 62) with 4611686018427387904 in HM. lia. }
    destruct (binary_round_aux_normal sx 1000 M (M / 1000) e'
                (new_location 1000 (M mod 1000)) ltac:(lia)
                (div_record_inv M ltac:(change (2 ^ 62) with 4611686018427387904 in HM; lia))
                Hq0 ltac:(unfold e'; lia))
      as (k & q & R & m & e & Hk & Hq & Hbr & Hlt & Hgt & Htie & HR & Hme & Eres).
    exists (- e'), k, q, R, m, e. fold M.
    split; [unfold e'; lia|]. split; [exact Hk|]. split; [exact Hq|].
    split; [exact Hbr|]. split; [exact Hlt|]. split; [exact Hgt|].
    split; [exact Htie|]. split; [exact HR|].
    split; [destruct Hme as [H|H]; [left | right]; lia|]. exact Eres. }
  destruct a as [|x|x]; [contradiction | |].
  - destruct (Hgen x false)
      as (s & k & q & R & m & e & H1 & H2 & H3 & H4 & H5 & H6 & H7 & H8 & H9 & E).
    exists s, k, q, R, m, e. repeat (split; [assumption|]).
    exact E.
  - destruct (Hgen x true)
      as (s & k & q & R & m & e & H1 & H2 & H3 & H4 & H5 & H6 & H7 & H8 & H9 & E).
    exists s, k, q, R, m, e. repeat (split; [assumption|]).
    exact E.
Qed.

Lemma pow2_factor (a b : Z) :
  0 <= a <= b -> exists J, 1 <= J /\ 2 ^ b = 2 ^ a * J.
Proof.
  intros H. exists (2 ^ (b - a)). split.
  - assert (0 < 2 ^ (b - a)) by (apply Z.pow_pos_nonneg; lia). lia.
  - rewrite <- pow2_split by lia. f_equal. lia.
Qed.

Lemma SFleb_finite (L m : positive) (eL e : Z) :
  SFleb (S754_finite false L eL) (S754_finite false m e)
  = match eL ?= e with
    | Lt => true
    | Gt => false
    | Eq => (Zpos L <=? Zpos m)
    end.
Proof.
  unfold SFleb, SFcompare. destruct (eL ?= e); reflexivity.
Qed.

(** Comparing the quotient of an integer by 1000 with a double [L * 2^eL]
    that lies at or below [t / 1000] and whose predecessor lies at or above
    [(t - 1) / 1000] is comparing the integer with [t]. *)
Lemma true_div_ge_threshold (L : positive) (eL t : Z) :
  2 ^ 52 < Zpos L < 2 ^ 53 -> eL < 0 -> 0 < t ->
  1000 * Zpos L <= t * 2 ^ (- eL) ->
  (t - 1) * 2 ^ (- eL) <= 1000 * (Zpos L - 1) ->
  forall x,
    Binary64.geb (Binary64.true_div x 1000) (S754_finite false L eL)
    = (t <=? x).
Proof.
  intros HL HeL Ht Hlo Hhi x.
  change (2 ^ 52) with 4503599627370496 in HL.
  change (2 ^ 53) with 9007199254740992 in HL.
  destruct (Z.eq_dec x 0) as [->|Hx].
  - replace (t <=? 0) with false by (symmetry; apply Z.leb_gt; lia). reflexivity.
  - destruct (true_div_1000_round x Hx)
      as (s & k & q & R & m & e & Hs & Hk & Hq & Hbr & Hlt & _ & _ & HR & Hme & ->).
    unfold Binary64.geb.
    destruct (Z_lt_le_dec x 0) as [Hneg|Hpos].
    + replace (x <? 0) with true by (symmetry; apply Z.ltb_lt; lia).
      replace (t <=? x) with false by (symmetry; apply Z.leb_gt; lia).
      destruct (e <=? 971); reflexivity.
    + replace (x <? 0) with false by (symmetry; apply Z.ltb_ge; lia).
      replace (Z.abs x) with x in * by lia.
      change (2 ^ 52) with 4503599627370496 in *.
      change (2 ^ 53) with 9007199254740992 in *.
      assert (HA : 0 < 2 ^ k) by (apply Z.pow_pos_nonneg; lia).
      assert (HB : 0 < 2 ^ (- eL)) by (apply Z.pow_pos_nonneg; lia).
      assert (HS : 0 < 2 ^ s) by (apply Z.pow_pos_nonneg; lia).
      set (A := 2 ^ k) in *. set (B := 2 ^ (- eL)) in *. set (S := 2 ^ s) in *.
      destruct (Z_le_gt_dec t x) as [Hge|Hlt'].
      * (* at or above the threshold *)
        replace (t <=? x) with true by (symmetry; apply Z.leb_le; lia).
        assert (HxB : 1000 * Zpos L <= x * B).
        { assert (t * B <= x * B) by (apply Z.mul_le_mono_nonneg_r; lia). lia. }
        assert (HE1 : eL <= k - s).
        { destruct (Z_le_gt_dec eL (k - s)) as [H|H]; [exact H|]. exfalso.
          destruct (pow2_factor (k + - eL + 1) s ltac:(lia)) as (J & HJ & EJ).
          rewrite !pow2_split in EJ by lia. change (2 ^ 1) with 2 in EJ.
          fold A B S in EJ.
          assert (HAJ : A * 1 <= A * J) by (apply Z.mul_le_mono_nonneg_l; lia).
          assert (E1 : x * S = x * B * (2 * (A * J))) by (rewrite EJ; ring).
          assert (H1 : 1000 * Zpos L * (2 * (A * J)) <= x * B * (2 * (A * J)))
            by (apply Z.mul_le_mono_nonneg_r; lia).
          assert (H2 : 1000 * Zpos L * (2 * A) <= 1000 * Zpos L * (2 * (A * J)))
            by (apply Z.mul_le_mono_nonneg_l; lia).
          assert (H3 : A * (1000 * (q + 1)) <= A * (1000 * 9007199254740992))
            by (apply Z.mul_le_mono_nonneg_l; lia).
          assert (H4 : A * (1000 * 9007199254740992) < A * (2000 * Zpos L))
            by (apply Z.mul_lt_mono_pos_l; lia).
          clear - Hbr E1 H1 H2 H3 H4. lia. }
        assert (HqL : k - s = eL -> Zpos L <= q).
        { intros E.
          assert (ES : S = A * B).
          { unfold S, A, B. rewrite <- pow2_split by lia. f_equal. lia. }
          assert (E1 : x * S = x * B * A) by (rewrite ES; ring).
          assert (H1 : 1000 * Zpos L * A <= x * B * A)
            by (apply Z.mul_le_mono_nonneg_r; lia).
          assert (H2 : 1000 * A * Zpos L < 1000 * A * (q + 1))
            by (clear - Hbr E1 H1; lia).
          assert (Zpos L < q + 1); [|lia].
          apply (Z.mul_lt_mono_pos_l (1000 * A)); [lia | exact H2]. }
        destruct (e <=? 971); [|reflexivity].
        rewrite SFleb_finite.
        destruct (Z.compare_spec eL e) as [E|E|E]; [|reflexivity|exfalso; lia].
        apply Z.leb_le. destruct Hme as [(HRs & -> & Ee)|(_ & _ & Ee)]; [|lia].
        rewrite Z2Pos.id by lia. specialize (HqL ltac:(lia)). lia.
      * (* below the threshold *)
        replace (t <=? x) with false by (symmetry; apply Z.leb_gt; lia).
        assert (HxB : x * B <= 1000 * (Zpos L - 1)).
        { assert (x * B <= (t - 1) * B) by (apply Z.mul_le_mono_nonneg_r; lia).
          lia. }
        assert (HE1 : k - s <= eL).
        { destruct (Z_le_gt_dec (k - s) eL) as [H|H]; [exact H|]. exfalso.
          destruct (pow2_factor (s + 1) (k + - eL) ltac:(lia)) as (J & HJ & EJ).
          rewrite !pow2_split in EJ by lia. change (2 ^ 1) with 2 in EJ.
          fold A B S in EJ.
          assert (H1 : 1000 * A * q * B <= x * S * B)
            by (apply Z.mul_le_mono_nonneg_r; lia).
          assert (E2 : 1000 * A * q * B = 1000 * S * (2 * (q * J))).
          { replace (1000 * A * q * B) with (1000 * q * (A * B)) by ring.
            rewrite EJ. ring. }
          assert (H3 : x * B * S <= 1000 * (Zpos L - 1) * S)
            by (apply Z.mul_le_mono_nonneg_r; lia).
          assert (E3 : x * S * B = x * B * S) by ring.
          assert (H4 : 1000 * S * (2 * (q * J)) <= 1000 * S * (Zpos L - 1))
            by (clear - H1 E2 H3 E3; lia).
          apply Z.mul_le_mono_pos_l in H4; [|lia].
          assert (H5 : q * 1 <= q * J) by (apply Z.mul_le_mono_nonneg_l; lia).
          clear - H4 H5 Hq HL. lia. }
        assert (HRL : k - s = eL -> R < Zpos L).
        { intros E.
          assert (ES : S = A * B).
          { unfold S, A, B. rewrite <- pow2_split by lia. f_equal. lia. }
          assert (E1 : x * S = x * B * A) by (rewrite ES; ring).
          assert (H1 : x * B * A <= 1000 * (Zpos L - 1) * A)
            by (apply Z.mul_le_mono_nonneg_r; lia).
          assert (H2 : 1000 * A * q <= 1000 * A * (Zpos L - 1))
            by (clear - Hbr E1 H1; lia).
          assert (HqL : q <= Zpos L - 1).
          { apply (Z.mul_le_mono_pos_l _ _ (1000 * A)); [lia | exact H2]. }
          destruct (Z.eq_dec q (Zpos L - 1)) as [Eq|Nq]; [|lia].
          rewrite Hlt; [lia|]. clear - Hbr E1 H1 Eq HA. subst q. lia. }
        assert (He : e <= eL /\ (e = eL -> m < Zpos L)).
        { destruct Hme as [(HRs & -> & Ee)|(ER & -> & Ee)].
          - split; [lia|]. intros E'. apply HRL. lia.
          - destruct (Z.eq_dec (k - s) eL) as [E'|N'].
            + specialize (HRL E'). lia.
            + split; [lia|]. intros _. lia. }
        destruct He as [He Hm].
        replace (e <=? 971) with true by (symmetry; apply Z.leb_le; lia).
        rewrite SFleb_finite.
        destruct (Z.compare_spec eL e) as [E|E|E]; [|exfalso; lia|reflexivity].
        apply Z.leb_gt. specialize (Hm (eq_sym E)).
        assert (0 < m).
        { destruct Hme as [(_ & -> & _)|(_ & -> & _)]; lia. }
        rewrite Z2Pos.id by lia. exact Hm.
Qed.

(** The loop's comparison of a pause with [MAX_PAUSE_S] is the comparison
    of the exact quotient with 7/10. *)
Lemma pause_trigger_exact (x : Z) :
  Binary64.geb (Binary64.true_div x 1000) MAX_PAUSE_S = true
  <-> (7 # 10 <= inject_Z x / 1000)%Q.
Proof.
  unfold MAX_PAUSE_S, Binary64.literal_0_7.
  rewrite (true_div_ge_threshold 6305039478318694 (-53) 700);
    [| split; reflexivity | reflexivity | reflexivity
     | intros H; discriminate H | intros H; discriminate H].
  rewrite Z.leb_le. unfold Qle. simpl. lia.
Qed.

(** The loop's comparison of a block duration with [MAX_DURATION_S] is the
    comparison of the exact quotient with 7. *)
Lemma duration_trigger_exact (x : Z) :
  Binary64.geb (Binary64.true_div x 1000) (Binary64.of_int MAX_DURATION_S) = true
  <-> (7 <= inject_Z x / 1000)%Q.
Proof.
  change (Binary64.of_int MAX_DURATION_S)
    with (S754_finite false 7881299347898368 (-50)).
  rewrite (true_div_ge_threshold 7881299347898368 (-50) 7000);
    [| split; reflexivity | reflexivity | reflexivity
     | intros H; discriminate H | intros H; discriminate H].
  rewrite Z.leb_le. unfold Qle. simpl. lia.
Qed.

(** Of two positive integers the larger has the larger rounded quotient:
    a higher exponent or, at the same exponent, a mantissa at least as
    large. *)
Lemma quotient_order (a b s1 k1 q1 R1 m1 e1 s2 k2 q2 R2 m2 e2 : Z) :
  0 < a <= b ->
  0 <= s1 -> 0 <= k1 -> 2 ^ 52 <= q1 < 2 ^ 53 ->
  1000 * 2 ^ k1 * q1 <= a * 2 ^ s1 < 1000 * 2 ^ k1 * (q1 + 1) ->
  (2 * (a * 2 ^ s1 - 1000 * 2 ^ k1 * q1) < 1000 * 2 ^ k1 -> R1 = q1) ->
  (2 * (a * 2 ^ s1 - 1000 * 2 ^ k1 * q1) = 1000 * 2 ^ k1 ->
   R1 = if Z.even q1 then q1 else q1 + 1) ->
  q1 <= R1 <= q1 + 1 ->
  ((R1 < 2 ^ 53 /\ m1 = R1 /\ e1 = k1 - s1)
   \/ (R1 = 2 ^ 53 /\ m1 = 2 ^ 52 /\ e1 = k1 - s1 + 1)) ->
  0 <= s2 -> 0 <= k2 -> 2 ^ 52 <= q2 < 2 ^ 53 ->
  1000 * 2 ^ k2 * q2 <= b * 2 ^ s2 < 1000 * 2 ^ k2 * (q2 + 1) ->
  (1000 * 2 ^ k2 < 2 * (b * 2 ^ s2 - 1000 * 2 ^ k2 * q2) -> R2 = q2 + 1) ->
  (2 * (b * 2 ^ s2 - 1000 * 2 ^ k2 * q2) = 1000 * 2 ^ k2 ->
   R2 = if Z.even q2 then q2 else q2 + 1) ->
  q2 <= R2 <= q2 + 1 ->
  ((R2 < 2 ^ 53 /\ m2 = R2 /\ e2 = k2 - s2)
   \/ (R2 = 2 ^ 53 /\ m2 = 2 ^ 52 /\ e2 = k2 - s2 + 1)) ->
  e1 < e2 \/ (e1 = e2 /\ m1 <= m2).
Proof.
  intros Hab Hs1 Hk1 Hq1 Hbr1 Hlt1 Htie1 HR1 Hme1
         Hs2 Hk2 Hq2 Hbr2 Hgt2 Htie2 HR2 Hme2.
  change (2 ^ 52) with 4503599627370496 in *.
  change (2 ^ 53) with 9007199254740992 in *.
  assert (HA1 : 0 < 2 ^ k1) by (apply Z.pow_pos_nonneg; lia).
  assert (HA2 : 0 < 2 ^ k2) by (apply Z.pow_pos_nonneg; lia).
  assert (HS1 : 0 < 2 ^ s1) by (apply Z.pow_pos_nonneg; lia).
  assert (HS2 : 0 < 2 ^ s2) by (apply Z.pow_pos_nonneg; lia).
  set (A1 := 2 ^ k1) in *. set (A2 := 2 ^ k2) in *.
  set (S1 := 2 ^ s1) in *. set (S2 := 2 ^ s2) in *.
  (* both brackets on the common scale S1 * S2 *)
  assert (Hlo1 : 1000 * (A1 * S2) * q1 <= a * (S1 * S2)).
  { replace (1000 * (A1 * S2) * q1) with (1000 * A1 * q1 * S2) by ring.
    replace (a * (S1 * S2)) with (a * S1 * S2) by ring.
    apply Z.mul_le_mono_nonneg_r; lia. }
  assert (Hhi2 : b * (S1 * S2) < 1000 * (A2 * S1) * (q2 + 1)).
  { replace (1000 * (A2 * S1) * (q2 + 1)) with (1000 * A2 * (q2 + 1) * S1) by ring.
    replace (b * (S1 * S2)) with (b * S2 * S1) by ring.
    apply Z.mul_lt_mono_pos_r; lia. }
  assert (HW : 0 < S1 * S2) by (apply Z.mul_pos_pos; assumption).
  assert (Hab' : a * (S1 * S2) <= b * (S1 * S2))
    by (apply Z.mul_le_mono_nonneg_r; lia).
  assert (HP1 : 0 < A1 * S2) by (apply Z.mul_pos_pos; assumption).
  assert (HP2 : 0 < A2 * S1) by (apply Z.mul_pos_pos; assumption).
  assert (HE : k1 - s1 <= k2 - s2).
  { clear Hlt1 Htie1 Hgt2 Htie2 Hme1 Hme2 HR1 HR2 Hab Hbr1 Hbr2.
    destruct (Z_le_gt_dec (k1 - s1) (k2 - s2)) as [H|H]; [exact H|]. exfalso.
    destruct (pow2_factor (k2 + s1 + 1) (k1 + s2) ltac:(lia)) as (J & HJ & EJ).
    rewrite !pow2_split in EJ by lia. change (2 ^ 1) with 2 in EJ.
    fold A1 A2 S1 S2 in EJ. rewrite EJ in Hlo1.
    assert (1000 * (A2 * S1 * 2 * J) * q1 < 1000 * (A2 * S1) * (q2 + 1))
      by (clear - Hlo1 Hhi2 Hab'; lia).
    assert (Hc : 2 * J * q1 < q2 + 1).
    { apply (Z.mul_lt_mono_pos_l (1000 * (A2 * S1))); [lia|].
      replace (1000 * (A2 * S1) * (2 * J * q1))
        with (1000 * (A2 * S1 * 2 * J) * q1) by ring. exact H0. }
    assert (1 * q1 <= J * q1) by (apply Z.mul_le_mono_nonneg_r; lia).
    lia. }
  destruct (Z.eq_dec (k1 - s1) (k2 - s2)) as [Eeq|Ene].
  - (* the same exponent before any carry *)
    assert (EP : A1 * S2 = A2 * S1).
    { unfold A1, A2, S1, S2. rewrite <- !pow2_split by lia. f_equal. lia. }
    rewrite EP in Hlo1.
    set (P := A2 * S1) in *. set (W := S1 * S2) in *.
    assert (Hq : q1 <= q2).
    { assert (1000 * P * q1 < 1000 * P * (q2 + 1)) by lia.
      assert (q1 < q2 + 1); [|lia].
      apply (Z.mul_lt_mono_pos_l (1000 * P)); lia. }
    assert (HR : R1 <= R2).
    { destruct (Z.eq_dec q1 q2) as [Eq|Nq]; [|lia]. subst q2.
      (* the two remainders against the half, on the common scale *)
      assert (Er1 : 2 * (a * S1 - 1000 * A1 * q1) * S2
                    = 2 * (a * W - 1000 * P * q1)).
      { unfold W. rewrite <- EP. ring. }
      assert (Eh1 : 1000 * A1 * S2 = 1000 * P) by (rewrite <- EP; ring).
      assert (Er2 : 2 * (b * S2 - 1000 * A2 * q1) * S1
                    = 2 * (b * W - 1000 * P * q1)).
      { unfold W, P. ring. }
      assert (Eh2 : 1000 * A2 * S1 = 1000 * P) by (unfold P; ring).
      destruct (Z.lt_trichotomy (2 * (b * S2 - 1000 * A2 * q1)) (1000 * A2))
        as [Hb|[Hb|Hb]].
      + (* b rounds down, so does a *)
        assert (2 * (b * W - 1000 * P * q1) < 1000 * P).
        { rewrite <- Er2, <- Eh2. apply Z.mul_lt_mono_pos_r; lia. }
        assert (Ha : 2 * (a * S1 - 1000 * A1 * q1) < 1000 * A1).
        { apply (Z.mul_lt_mono_pos_r S2); [lia|]. rewrite Er1, Eh1. lia. }
        rewrite (Hlt1 Ha). lia.
      + (* b is at the tie *)
        rewrite (Htie2 Hb).
        assert (2 * (b * W - 1000 * P * q1) = 1000 * P).
        { rewrite <- Er2, <- Eh2. rewrite Hb. ring. }
        destruct (Z.eq_dec (a * W) (b * W)) as [Ew|Nw].
        * assert (Ha : 2 * (a * S1 - 1000 * A1 * q1) = 1000 * A1).
          { apply (Z.mul_cancel_r _ _ S2); [lia|]. rewrite Er1, Eh1. lia. }
          rewrite (Htie1 Ha). lia.
        * assert (Ha : 2 * (a * S1 - 1000 * A1 * q1) < 1000 * A1).
          { apply (Z.mul_lt_mono_pos_r S2); [lia|]. rewrite Er1, Eh1. lia. }
          rewrite (Hlt1 Ha). destruct (Z.even q1); lia.
      + rewrite (Hgt2 Hb). lia. }
    destruct Hme1 as [(H1 & -> & ->)|(H1 & -> & ->)];
      destruct Hme2 as [(H2 & -> & ->)|(H2 & -> & ->)]; lia.
  - (* a lower exponent *)
    destruct Hme1 as [(H1 & -> & ->)|(H1 & -> & ->)];
      destruct Hme2 as [(H2 & -> & ->)|(H2 & -> & ->)]; lia.
Qed.

Lemma SFleb_finite_neg (m1 m2 : positive) (e1 e2 : Z) :
  SFleb (S754_finite true m1 e1) (S754_finite true m2 e2)
  = match e1 ?= e2 with
    | Lt => false
    | Gt => true
    | Eq => (Zpos m2 <=? Zpos m1)
    end.
Proof.
  unfold SFleb, SFcompare. destruct (e1 ?= e2); try reflexivity.
  unfold Z.leb. cbn [Z.compare]. rewrite (Pos.compare_antisym m1 m2).
  rewrite Pos.compare_cont_spec. cbn [Pos.switch_Eq].
  destruct (m1 ?= m2)%positive; reflexivity.
Qed.

(** Division by 1000 keeps the order of the integers. *)
Lemma true_div_1000_mono (a b : Z) :
  a <= b ->
  Binary64.leb (Binary64.true_div a 1000) (Binary64.true_div b 1000) = true.
Proof.
  intros Hab. unfold Binary64.leb.
  destruct (Z.eq_dec a 0) as [Ea|Na]; destruct (Z.eq_dec b 0) as [Eb|Nb].
  - subst. reflexivity.
  - subst a.
    destruct (true_div_1000_round b Nb)
      as (s & k & q & R & m & e & _ & _ & _ & _ & _ & _ & _ & _ & _ & ->).
    replace (b <? 0) with false by (symmetry; apply Z.ltb_ge; lia).
    destruct (e <=? 971); reflexivity.
  - subst b.
    destruct (true_div_1000_round a Na)
      as (s & k & q & R & m & e & _ & _ & _ & _ & _ & _ & _ & _ & _ & ->).
    replace (a <? 0) with true by (symmetry; apply Z.ltb_lt; lia).
    destruct (e <=? 971); reflexivity.
  - destruct (true_div_1000_round a Na)
      as (s1 & k1 & q1 & R1 & m1 & e1 & Hs1 & Hk1 & Hq1 & Hbr1 & Hlt1 & Hgt1
          & Htie1 & HR1 & Hme1 & ->).
    destruct (true_div_1000_round b Nb)
      as (s2 & k2 & q2 & R2 & m2 & e2 & Hs2 & Hk2 & Hq2 & Hbr2 & Hlt2 & Hgt2
          & Htie2 & HR2 & Hme2 & ->).
    assert (Hm1 : 0 < m1).
    { change (2 ^ 52) with 4503599627370496 in *.
      destruct Hme1 as [(_ & -> & _)|(_ & -> & _)]; lia. }
    assert (Hm2 : 0 < m2).
    { change (2 ^ 52) with 4503599627370496 in *.
      destruct Hme2 as [(_ & -> & _)|(_ & -> & _)]; lia. }
    destruct (Z_lt_le_dec a 0) as [Haneg|Hapos];
      destruct (Z_lt_le_dec b 0) as [Hbneg|Hbpos].
    + (* both negative: the order of the magnitudes is reversed *)
      replace (a <? 0) with true by (symmetry; apply Z.ltb_lt; lia).
      replace (b <? 0) with true by (symmetry; apply Z.ltb_lt; lia).
      assert (Hord : e2 < e1 \/ (e2 = e1 /\ m2 <= m1)).
      { apply (quotient_order (Z.abs b) (Z.abs a) s2 k2 q2 R2 m2 e2
                 s1 k1 q1 R1 m1 e1); try assumption; lia. }
      destruct (e1 <=? 971) eqn:E1.
      * apply Z.leb_le in E1.
        replace (e2 <=? 971) with true by (symmetry; apply Z.leb_le; lia).
        rewrite SFleb_finite_neg.
        destruct (Z.compare_spec e1 e2) as [E|E|E]; [|exfalso; lia|reflexivity].
        apply Z.leb_le. rewrite !Z2Pos.id by lia. lia.
      * destruct (e2 <=? 971); reflexivity.
    + replace (a <? 0) with true by (symmetry; apply Z.ltb_lt; lia).
      replace (b <? 0) with false by (symmetry; apply Z.ltb_ge; lia).
      destruct (e1 <=? 971); destruct (e2 <=? 971); reflexivity.
    + exfalso. lia.
    + replace (a <? 0) with false by (symmetry; apply Z.ltb_ge; lia).
      replace (b <? 0) with false by (symmetry; apply Z.ltb_ge; lia).
      assert (Hord : e1 < e2 \/ (e1 = e2 /\ m1 <= m2)).
      { apply (quotient_order (Z.abs a) (Z.abs b) s1 k1 q1 R1 m1 e1
                 s2 k2 q2 R2 m2 e2); try assumption; lia. }
      destruct (e2 <=? 971) eqn:E2.
      * apply Z.leb_le in E2.
        replace (e1 <=? 971) with true by (symmetry; apply Z.leb_le; lia).
        rewrite SFleb_finite.
        destruct (Z.compare_spec e1 e2) as [E|E|E]; [|reflexivity|exfalso; lia].
        apply Z.leb_le. rewrite !Z2Pos.id by lia. lia.
      * destruct (e1 <=? 971); reflexivity.
Qed.

End DivisionFacts.

(** * Properties of the splitting loop *)

Section LoopFacts.

Local Open Scope Z_scope.

Lemma run_loop_app (pre post : list Word) (st : LoopState) :
  run_loop (pre ++ post) st = run_loop post (run_loop pre st).
Proof. unfold run_loop. apply fold_left_app. Qed.

Lemma run_loop_snoc (pre : list Word) (w : Word) (st : LoopState) :
  run_loop (pre ++ [w]) st = process_word (run_loop pre st) w.
Proof. rewrite run_loop_app. reflexivity. Qed.

(** A word leaves the open block non-empty. *)
Lemma process_word_open (st : LoopState) (w : Word) :
  current_block_words (process_word st w) <> [].
Proof.
  unfold process_word.
  destruct (current_block_words st) as [|first others]; simpl; [discriminate|].
  destruct (should_start_new_block first others w); simpl; discriminate.
Qed.

Lemma run_loop_open (pre : list Word) (st : LoopState) :
  pre <> [] -> current_block_words (run_loop pre st) <> [].
Proof.
  intros H. destruct (exists_last H) as [pre' [w ->]].
  rewrite run_loop_snoc. apply process_word_open.
Qed.

(** The loop and the final flush write exactly the blocks of
    [group_words], numbered from the counter the loop is entered with. *)
Lemma flush_run_loop (words : list Word) :
  forall st,
    f (flush (run_loop words st))
      = f st ++ cues_from (srt_counter st)
                   (group_words (current_block_words st) words)
    /\ current_block_words (flush (run_loop words st))
       = current_block_words (run_loop words st).
Proof.
  induction words as [|w rest IH]; intros st.
  - simpl. unfold flush.
    destruct (current_block_words st) as [|first others] eqn:E; simpl.
    + rewrite app_nil_r. auto.
    + auto.
  - change (run_loop (w :: rest) st) with (run_loop rest (process_word st w)).
    destruct (IH (process_word st w)) as [IHf IHc]. split; [|exact IHc].
    rewrite IHf. unfold process_word. simpl.
    destruct (current_block_words st) as [|first others] eqn:E; simpl.
    + reflexivity.
    + destruct (should_start_new_block first others w); simpl.
      * rewrite <- app_assoc. reflexivity.
      * reflexivity.
Qed.

Lemma flush_run_loop_counter (words : list Word) :
  forall st,
    srt_counter (flush (run_loop words st))
      = srt_counter st
        + Z.of_nat (List.length (group_words (current_block_words st) words)).
Proof.
  induction words as [|w rest IH]; intros st.
  - simpl. unfold flush.
    destruct (current_block_words st) as [|first others] eqn:E; simpl; lia.
  - change (run_loop (w :: rest) st) with (run_loop rest (process_word st w)).
    rewrite IH. unfold process_word. simpl.
    destruct (current_block_words st) as [|first others] eqn:E; simpl.
    + reflexivity.
    + destruct (should_start_new_block first others w); simpl List.length; simpl; lia.
Qed.

(** ** The groups partition the words *)

Lemma group_words_concat (words : list Word) :
  forall cur, List.concat (group_words cur words) = cur ++ words.
Proof.
  induction words as [|w rest IH]; intros cur; simpl.
  - destruct cur; simpl; rewrite ?app_nil_r; reflexivity.
  - destruct cur as [|first others].
    + rewrite IH. reflexivity.
    + destruct (should_start_new_block first others w).
      * simpl. rewrite IH. reflexivity.
      * rewrite IH, <- app_assoc. reflexivity.
Qed.

(** Whatever holds of every one-word block and survives each append the
    triggers allow holds of every closed group. *)
Lemma group_words_Forall (P : list Word -> Prop) :
  (forall w, P [w]) ->
  (forall first others w,
      P (first :: others) ->
      should_start_new_block first others w = false ->
      P ((first :: others) ++ [w])) ->
  forall words cur, (cur <> [] -> P cur) -> Forall P (group_words cur words).
Proof.
  intros Hseed Hgrow.
  induction words as [|w rest IH]; intros cur Hcur; simpl.
  - destruct cur; constructor; [apply Hcur; discriminate | constructor].
  - destruct cur as [|first others].
    + apply IH. intros _. apply Hseed.
    + destruct (should_start_new_block first others w) eqn:E.
      * constructor; [apply Hcur; discriminate|].
        apply IH. intros _. apply Hseed.
      * apply IH. intros _. apply Hgrow; [apply Hcur; discriminate | exact E].
Qed.

Lemma groups_nonempty (words : list Word) :
  Forall (fun g => g <> []) (groups words).
Proof.
  apply group_words_Forall.
  - discriminate.
  - discriminate.
  - intros H. exact H.
Qed.

Lemma groups_concat (words : list Word) : List.concat (groups words) = words.
Proof. apply (group_words_concat words []). Qed.

Lemma srt_cues_groups (words : list Word) :
  srt_cues words = cues_from 1 (groups words).
Proof.
  unfold srt_cues, create_speaker_srt, groups.
  destruct words as [|w rest]; [reflexivity|].
  destruct (flush_run_loop (w :: rest) initial_state) as [-> _].
  reflexivity.
Qed.

Lemma generated_blocks_groups (words : list Word) :
  generated_blocks words = Z.of_nat (List.length (groups words)).
Proof.
  unfold generated_blocks, create_speaker_srt, groups.
  destruct words as [|w rest]; [reflexivity|].
  rewrite flush_run_loop_counter. simpl srt_counter.
  simpl current_block_words. lia.
Qed.

(** ** Blocks written for non-empty groups *)

Lemma cues_from_length (gs : list (list Word)) :
  Forall (fun g => g <> []) gs ->
  forall n, List.length (cues_from n gs) = List.length gs.
Proof.
  induction 1 as [|g gs Hg _ IH]; intros n; simpl; [reflexivity|].
  destruct g as [|first others]; [contradiction|].
  simpl. rewrite IH. reflexivity.
Qed.


Lemma cues_from_index (gs : list (list Word)) :
  Forall (fun g => g <> []) gs ->
  forall n,
    map index (cues_from n gs)
    = map (fun i => n + Z.of_nat i) (seq 0 (List.length gs)).
Proof.
  induction 1 as [|g gs Hg _ IH]; intros n; simpl; [reflexivity|].
  destruct g as [|first others]; [contradiction|].
  cbn [cues_from map List.length seq index write_block].
  rewrite Z.add_0_r. f_equal.
  rewrite IH, <- seq_shift, map_map.
  apply map_ext. intros i. lia.
Qed.

Lemma last_default_irrelevant (l : list Word) (d d' : Word) :
  l <> [] -> last l d = last l d'.
Proof.
  induction l as [|a l IH]; intros H; [contradiction|].
  destruct l as [|b l]; [reflexivity|].
  change (last (b :: l) d = last (b :: l) d'). apply IH. discriminate.
Qed.

Lemma last_cons (a : Word) (l : list Word) (d : Word) :
  last (a :: l) d = last l a.
Proof.
  destruct l as [|b l]; [reflexivity|].
  change (last (b :: l) d = last (b :: l) a).
  apply last_default_irrelevant. discriminate.
Qed.

Lemma last_snoc (l : list Word) (w d : Word) : last (l ++ [w]) d = w.
Proof. apply last_last. Qed.

Lemma hd_error_rev_cons (first : Word) (others : list Word) :
  hd_error (rev (first :: others)) = Some (last others first).
Proof.
  revert first. induction others as [|a l IH]; intros first; [reflexivity|].
  change (rev (first :: a :: l)) with (rev (a :: l) ++ [first]).
  specialize (IH a). rewrite last_cons.
  destruct (rev (a :: l)); [discriminate | exact IH].
Qed.

Lemma write_block_cue_of_group (n : Z) (first : Word) (others : list Word) :
  cue_of_group n (first :: others) (write_block n first others).
Proof.
  exists first, (last others first).
  rewrite hd_error_rev_cons. repeat split.
Qed.

(** The flag of the loop body reflects the three triggers. *)
Lemma should_start_new_block_spec (first : Word) (others : list Word) (w : Word) :
  should_start_new_block first others w = true
  <-> pause_fires first others w
      \/ length_fires first others w
      \/ duration_fires first others w.
Proof.
  unfold should_start_new_block, pause_trigger, length_trigger,
    duration_trigger, pause_fires, length_fires, duration_fires,
    pause_duration, block_duration.
  rewrite !orb_true_iff, pause_trigger_exact, duration_trigger_exact,
    Nat.ltb_lt.
  unfold MAX_CHARS, joined. tauto.
Qed.

(** A relation between groups and blocks that holds of [write_block] on
    every group with the property [P] relates the groups to their blocks. *)
Lemma cues_from_Forall2 (P : list Word -> Prop) (R : list Word -> Cue -> Prop) :
  (forall n first others,
      P (first :: others) -> R (first :: others) (write_block n first others)) ->
  forall gs,
    Forall (fun g => g <> []) gs -> Forall P gs ->
    forall n, Forall2 R gs (cues_from n gs).
Proof.
  intros HR gs Hne. induction Hne as [|g gs Hg _ IH]; intros HP n.
  - constructor.
  - destruct g as [|first others]; [contradiction|].
    inversion HP; subst. simpl. constructor; [apply HR; assumption|].
    apply IH. assumption.
Qed.

Lemma Forall_trivial (gs : list (list Word)) : Forall (fun _ => True) gs.
Proof. induction gs; constructor; auto. Qed.

(** ** Lengths of joined texts *)

Lemma joined_cons (w : Word) (ws : list Word) :
  ws <> [] ->
  joined (w :: ws) = (text w ++ " " ++ joined ws)%string.
Proof. destruct ws; [contradiction | reflexivity]. Qed.

Lemma joined_snoc_length (first : Word) (others : list Word) (w : Word) :
  String.length (joined ((first :: others) ++ [w]))
  = (String.length (joined (first :: others)) + String.length (text w) + 1)%nat.
Proof.
  revert first. induction others as [|a l IH]; intros first.
  - change (joined ([first] ++ [w])) with (text first ++ " " ++ text w)%string.
    rewrite !string_length_app. simpl. unfold joined. simpl. lia.
  - change ((first :: a :: l) ++ [w]) with (first :: ((a :: l) ++ [w])).
    rewrite joined_cons by discriminate.
    rewrite (joined_cons first (a :: l)) by discriminate.
    rewrite !string_length_app, IH. lia.
Qed.

Lemma joined_In_length (w : Word) (g : list Word) :
  In w g -> (String.length (text w) <= String.length (joined g))%nat.
Proof.
  induction g as [|a l IH]; intros Hin; [contradiction|].
  destruct l as [|b l].
  - destruct Hin as [->|[]]. apply Nat.le_refl.
  - rewrite joined_cons by discriminate. rewrite !string_length_app.
    destruct Hin as [->|Hin]; [lia|]. specialize (IH Hin). lia.
Qed.

(** ** Groups as stretches of the input *)

Lemma groups_split (words : list Word) (gs1 gs2 : list (list Word)) (g : list Word) :
  groups words = gs1 ++ g :: gs2 ->
  words = List.concat gs1 ++ g ++ List.concat gs2.
Proof.
  intros E. rewrite <- (groups_concat words), E, concat_app. reflexivity.
Qed.

Lemma Sorted_middle (R : Word -> Word -> Prop) (l1 l2 : list Word) (a b : Word) :
  Sorted R (l1 ++ a :: b :: l2) -> R a b.
Proof.
  induction l1 as [|x l1 IH]; simpl; intros H.
  - apply Sorted_inv in H. destruct H as [_ H]. inversion H; assumption.
  - apply Sorted_inv in H. apply IH, H.
Qed.

Lemma StronglySorted_after (R : Word -> Word -> Prop) (l1 l2 : list Word) (a : Word) :
  StronglySorted R (l1 ++ a :: l2) -> Forall (R a) l2.
Proof.
  induction l1 as [|x l1 IH]; simpl; intros H.
  - apply StronglySorted_inv in H. apply H.
  - apply StronglySorted_inv in H. apply IH, H.
Qed.

Lemma last_In (others : list Word) (first : Word) :
  others <> [] -> In (last others first) others.
Proof.
  intros H. destruct (exists_last H) as [l [w ->]].
  rewrite last_snoc. apply in_or_app. right. left. reflexivity.
Qed.

Lemma snoc_last (first : Word) (others : list Word) :
  exists front, first :: others = front ++ [last others first].
Proof.
  destruct (@exists_last _ (first :: others)) as [front [l E]]; [discriminate|].
  exists front. rewrite E. f_equal. f_equal.
  rewrite <- (last_cons first others first), E. symmetry. apply last_snoc.
Qed.

Lemma groups_block_times (words : list Word) :
  Forall2 block_times (groups words) (srt_cues words).
Proof.
  rewrite srt_cues_groups.
  apply cues_from_Forall2 with (P := fun _ => True).
  - intros n first others _ first' others' E. injection E as <- <-.
    split; reflexivity.
  - apply groups_nonempty.
  - apply Forall_trivial.
Qed.

End LoopFacts.

(** * The claims about the splitting loop *)

Section Claims.

Local Open Scope Z_scope.



(** C5.  On the empty word sequence nothing is written: no block, a count
    of 0 generated blocks, and an empty file produced normally. *)
Theorem empty_input_no_cue :
  create_speaker_srt [] = initial_state
  /\ srt_cues [] = []
  /\ generated_blocks [] = 0
  /\ srt_file [] = Some EmptyString.
Proof. repeat split. Qed.

(** C8.  The numbers of the written blocks are 1, 2, ..., N, where N is
    the number of blocks, which is also the count the run reports. *)
Theorem index_contiguity (words : list Word) :
  map index (srt_cues words)
  = map Z.of_nat (seq 1 (List.length (srt_cues words)))
  /\ generated_blocks words = Z.of_nat (List.length (srt_cues words)).
Proof.
  rewrite generated_blocks_groups, srt_cues_groups.
  pose proof (groups_nonempty words) as Hne.
  rewrite (cues_from_length _ Hne), (cues_from_index _ Hne).
  split; [|reflexivity].
  rewrite <- seq_shift, map_map. apply map_ext. intros i. lia.
Qed.




(** C7.  The text of every written block has at most 80 characters,
    unless the block is a single word whose own text has more than 80; and
    a word of more than 80 characters always makes a block of its own. *)
Theorem cue_text_length_bound (words : list Word) :
  Forall2
    (fun g c =>
       cue_text c = String.concat " " (map text g)
       /\ ((String.length (cue_text c) <= 80)%nat
           \/ exists w, g = [w] /\ cue_text c = text w
                        /\ (80 < String.length (text w))%nat))
    (groups words) (srt_cues words)
  /\ Forall
       (fun g => forall w, In w g -> (80 < String.length (text w))%nat -> g = [w])
       (groups words).
Proof.
  assert (HP : Forall
            (fun g => (String.length (joined g) <= 80)%nat
                      \/ exists w, g = [w] /\ (80 < String.length (text w))%nat)
            (groups words)).
  { apply group_words_Forall.
    - intros w. destruct (Nat.le_gt_cases (String.length (text w)) 80) as [H|H].
      + left. exact H.
      + right. exists w. auto.
    - intros first others w _ Eflag. left.
      rewrite joined_snoc_length.
      destruct (Nat.le_gt_cases
                  (String.length (joined (first :: others))
                   + String.length (text w) + 1) 80) as [H|H]; [exact H|].
      assert (Ht : should_start_new_block first others w = true)
        by (apply should_start_new_block_spec; right; left; exact H).
      congruence.
    - intros H. contradiction. }
  split.
  - rewrite srt_cues_groups.
    apply cues_from_Forall2 with (2 := groups_nonempty words) (3 := HP).
    intros n first others [H|(w & E & H)]; (split; [reflexivity|]).
    + left. exact H.
    + right. exists w. injection E as -> ->. auto.
  - refine (Forall_impl _ _ HP).
    intros g [H|(w' & -> & H)] w Hin Hlong.
    + pose proof (joined_In_length w g Hin). lia.
    + destruct Hin as [->|[]]. reflexivity.
Qed.

Lemma cue_text_length_bound_witness :
  let long := mkWord (zeros 81) 200 300 in
  let words := [mkWord "a" 0 100; long; mkWord "b" 400 500] in
  In [long] (groups words)
  /\ In long [long]
  /\ (80 < String.length (text long))%nat
  /\ [long] = [long].
Proof.
  intros long words.
  assert (Hg : In [long] (groups words)) by (right; left; reflexivity).
  assert (Hw : In long [long]) by (left; reflexivity).
  assert (Hl : (80 < String.length (text long))%nat)
    by (apply Nat.ltb_lt; reflexivity).
  destruct (cue_text_length_bound words) as [_ Hall].
  rewrite Forall_forall in Hall.
  exact (conj Hg (conj Hw (conj Hl (Hall [long] Hg long Hw Hl)))).
Defined.

(** C10.  In a written block of two words or more, the end of the last
    word is less than 7 seconds after the start of the first; a block in
    which it is 7 seconds or more after consists of the single word that
    seeded it. *)
Theorem multiword_cue_span (words : list Word) :
  Forall2
    (fun g c =>
       cue_of_group (index c) g c
       /\ forall first_word last_word,
            hd_error g = Some first_word ->
            hd_error (rev g) = Some last_word ->
            ((2 <= List.length g)%nat ->
             (inject_Z (end_ last_word - start first_word) / 1000 < 7)%Q)
            /\ ((7 <= inject_Z (end_ last_word - start first_word) / 1000)%Q ->
                g = [first_word]))
    (groups words) (srt_cues words).
Proof.
  assert (HP : Forall
            (fun g => forall first others,
                 g = first :: others -> others <> [] ->
                 (inject_Z (end_ (last others first) - start first) / 1000 < 7)%Q)
            (groups words)).
  { apply group_words_Forall.
    - intros w first others E Hne. injection E as _ <-. contradiction.
    - intros first others w _ Eflag first' others' E _.
      injection E as <- <-. rewrite last_snoc.
      apply Qnot_le_lt. intros Hd.
      assert (Ht : should_start_new_block first others w = true)
        by (apply should_start_new_block_spec; right; right; exact Hd).
      congruence.
    - intros H. contradiction. }
  rewrite srt_cues_groups.
  apply cues_from_Forall2 with (2 := groups_nonempty words) (3 := HP).
  intros n first others Hspan.
  split; [apply (write_block_cue_of_group n first others)|].
  intros first_word last_word Hfirst Hlast.
  rewrite hd_error_rev_cons in Hlast.
  injection Hfirst as <-. injection Hlast as <-.
  destruct others as [|a l].
  - split; [simpl; lia | intros _; reflexivity].
  - assert (Hlt := Hspan first (a :: l) eq_refl ltac:(discriminate)).
    split; [intros _; exact Hlt|].
    intros Hge. exfalso. exact (Qlt_not_le _ _ Hlt Hge).
Qed.

Lemma multiword_cue_span_witness :
  let a := mkWord "a" 0 500 in
  let b := mkWord "b" 600 1100 in
  hd_error [a; b] = Some a
  /\ hd_error (rev [a; b]) = Some b
  /\ (2 <= List.length [a; b])%nat
  /\ (inject_Z (end_ b - start a) / 1000 < 7)%Q.
Proof.
  intros a b.
  pose proof (multiword_cue_span [a; b]) as H.
  change (groups [a; b]) with [[a; b]] in H.
  change (srt_cues [a; b]) with [write_block 1 a [b]] in H.
  inversion H as [|g c gs cs [_ Hspan] _]; subst.
  assert (Hfirst : hd_error [a; b] = Some a) by reflexivity.
  assert (Hlast : hd_error (rev [a; b]) = Some b) by reflexivity.
  assert (Hlen : (2 <= List.length [a; b])%nat) by (simpl; lia).
  destruct (Hspan a b Hfirst Hlast) as [Hlt _].
  exact (conj Hfirst (conj Hlast (conj Hlen (Hlt Hlen)))).
Defined.

(** C9.  When the words come in non-decreasing order of start and no word
    ends before it starts, no written block ends before it starts. *)
Theorem cue_start_le_end (words : list Word) :
  Sorted (fun a b => start a <= start b) words ->
  Forall (fun w => start w <= end_ w) words ->
  Forall (fun c => Binary64.leb (cue_start c) (cue_end c) = true)
    (srt_cues words).
Proof.
  intros Hsorted Hends.
  assert (Hss : StronglySorted (fun a b => start a <= start b) words).
  { apply Sorted_StronglySorted; [|exact Hsorted].
    intros a b c Hab Hbc. lia. }
  rewrite Forall_forall in Hends.
  pose proof (groups_block_times words) as Htimes.
  assert (Hgs : forall g, In g (groups words) ->
                forall first others, g = first :: others ->
                start first <= end_ (last others first)).
  { intros g Hin first others ->.
    destruct (in_split _ _ Hin) as (gs1 & gs2 & E).
    pose proof (groups_split words gs1 gs2 _ E) as Ew.
    assert (Hfirst : In first words).
    { rewrite Ew. apply in_or_app. right. left. reflexivity. }
    destruct others as [|a l].
    - simpl. apply Hends, Hfirst.
    - assert (Hlast : In (last (a :: l) first) (a :: l))
        by (apply last_In; discriminate).
      assert (Hafter : Forall (fun b => start first <= start b)
                              ((a :: l) ++ List.concat gs2)).
      { apply (StronglySorted_after (fun a b => start a <= start b)
                 (List.concat gs1) _ first).
        rewrite Ew in Hss. exact Hss. }
      rewrite Forall_forall in Hafter.
      assert (Hle : start first <= start (last (a :: l) first)).
      { apply Hafter. apply in_or_app. left. exact Hlast. }
      assert (Hin' : In (last (a :: l) first) words).
      { rewrite Ew. apply in_or_app. right. right.
        apply in_or_app. left. exact Hlast. }
      specialize (Hends _ Hin'). cbv beta in Hends. lia. }
  pose proof (groups_nonempty words) as Hne. rewrite Forall_forall in Hne.
  revert Hgs Hne. induction Htimes as [|g c gs cs Hgc _ IH]; intros Hgs Hne.
  - constructor.
  - constructor.
    + destruct g as [|first others]; [exfalso; apply (Hne []); [left|]; reflexivity|].
      destruct (Hgc first others eq_refl) as [-> ->].
      apply true_div_1000_mono.
      apply (Hgs (first :: others)); [left|]; reflexivity.
    + apply IH.
      * intros g' Hin. apply Hgs. right. exact Hin.
      * intros g' Hin. apply Hne. right. exact Hin.
Qed.

Lemma cue_start_le_end_witness :
  let words := [mkWord "a" 0 500; mkWord "b" 600 1100] in
  Sorted (fun a b => start a <= start b) words
  /\ Forall (fun w => start w <= end_ w) words
  /\ Forall (fun c => Binary64.leb (cue_start c) (cue_end c) = true)
       (srt_cues words).
Proof.
  intros words.
  assert (Hs : Sorted (fun a b => start a <= start b) words).
  { repeat constructor. simpl. lia. }
  assert (He : Forall (fun w => start w <= end_ w) words).
  { repeat constructor; simpl; lia. }
  exact (conj Hs (conj He (cue_start_le_end words Hs He))).
Defined.

(** C3, as the claim has it, fails: with starts in order and every end at
    or after its start, a word may still end after the next word starts,
    and a break between two such words yields overlapping blocks. *)
Lemma adjacent_cues_overlap_counterexample :
  ~ (forall words : list Word,
        Sorted (fun a b => start a <= start b) words ->
        Forall (fun w => start w <= end_ w) words ->
        forall pre c c' post,
          srt_cues words = pre ++ c :: c' :: post ->
          Binary64.leb (cue_end c) (cue_start c') = true).
Proof.
  intros H.
  specialize (H [mkWord "a" 0 6500; mkWord "b" 6400 7000]).
  assert (Hle : Binary64.leb (Binary64.true_div 6500 1000)
                  (Binary64.true_div 6400 1000) = true).
  { apply (H ltac:(repeat constructor; simpl; lia)
             ltac:(repeat constructor; simpl; lia)
             []
             (mkCue 1 (Binary64.true_div 0 1000) (Binary64.true_div 6500 1000) "a")
             (mkCue 2 (Binary64.true_div 6400 1000) (Binary64.true_div 7000 1000) "b")
             []).
    vm_compute. reflexivity. }
  vm_compute in Hle. discriminate Hle.
Qed.

(** C3, amended.  When no word ends after the next word starts, no written
    block ends after the next block starts. *)
Theorem adjacent_cues_disjoint (words : list Word) :
  Sorted (fun a b => end_ a <= start b) words ->
  forall pre c c' post,
    srt_cues words = pre ++ c :: c' :: post ->
    Binary64.leb (cue_end c) (cue_start c') = true.
Proof.
  intros Hsorted pre c c' post Ecues.
  pose proof (groups_block_times words) as Htimes.
  rewrite Ecues in Htimes.
  apply Forall2_app_inv_r in Htimes.
  destruct Htimes as (gs1 & gs' & _ & Htail & Egs).
  inversion Htail as [|g c0 gs'' cs Hg Htail' Eg Ec]; subst.
  inversion Htail' as [|g' c0 gs2 cs Hg' _ Eg Ec]; subst.
  pose proof (groups_nonempty words) as Hne.
  rewrite Egs in Hne. rewrite Forall_forall in Hne.
  destruct g as [|first others];
    [exfalso; apply (Hne []); [apply in_or_app; right; left|]; reflexivity|].
  destruct g' as [|first' others'];
    [exfalso; apply (Hne []); [apply in_or_app; right; right; left|];
     reflexivity|].
  destruct (Hg first others eq_refl) as [_ ->].
  destruct (Hg' first' others' eq_refl) as [-> _].
  apply true_div_1000_mono.
  pose proof (groups_split words gs1 _ _ Egs) as Ew.
  destruct (snoc_last first others) as [front Efront].
  rewrite Efront in Ew. simpl in Ew.
  rewrite <- app_assoc in Ew. simpl in Ew.
  rewrite app_assoc in Ew. rewrite Ew in Hsorted.
  apply Sorted_middle in Hsorted. exact Hsorted.
Qed.

Lemma adjacent_cues_disjoint_witness :
  let words := [mkWord "a" 0 500; mkWord "b" 2000 2500] in
  Sorted (fun a b => end_ a <= start b) words
  /\ Binary64.leb (Binary64.true_div 500 1000) (Binary64.true_div 2000 1000)
     = true.
Proof.
  intros words.
  assert (Hs : Sorted (fun a b => end_ a <= start b) words).
  { repeat constructor. simpl. lia. }
  split; [exact Hs|].
  exact (adjacent_cues_disjoint words Hs []
           (mkCue 1 (Binary64.true_div 0 1000) (Binary64.true_div 500 1000) "a")
           (mkCue 2 (Binary64.true_div 2000 1000) (Binary64.true_div 2500 1000) "b")
           [] eq_refl).
Defined.

(** C4.  For a double that is zero or positive and finite,
    [format_srt_time] returns hours, minutes, seconds and milliseconds as
    HH:MM:SS,mmm: the whole seconds are the double truncated, the hours are
    all of them divided by 3600 (no wrap at 24), written with two digits at
    least, minutes and seconds are below 60 and take exactly two digits, and
    the milliseconds are the computed product of the fractional part and
    1000, truncated, lie below 1000 and take exactly three digits.  So
    3661.25 gives 01:01:01,250 and 0 gives 00:00:00,000; 25 hours and a half
    second give 25:00:00,500, and 1.9996 gives 00:00:01,999. *)
Theorem format_srt_time_renders :
  (forall seconds : Binary64.float,
      Binary64.nonneg_finite seconds ->
      exists whole millisec : Z,
        let product :=
          Binary64.mul (Binary64.sub seconds (Binary64.of_int whole))
            (Binary64.of_int 1000) in
        Binary64.to_int seconds = Some whole
        /\ 0 <= whole
        /\ (inject_Z whole <= Binary64.to_Q seconds)%Q
        /\ (Binary64.to_Q seconds < inject_Z whole + 1)%Q
        /\ Binary64.to_int product = Some millisec
        /\ 0 <= millisec < 1000
        /\ (inject_Z millisec <= Binary64.to_Q product)%Q
        /\ (Binary64.to_Q product < inject_Z millisec + 1)%Q
        /\ format_srt_time seconds
           = Some (format_d 2 (whole / 3600) ++ ":"
                   ++ format_d 2 (whole / 60 mod 60) ++ ":"
                   ++ format_d 2 (whole mod 60) ++ ","
                   ++ format_d 3 millisec)%string
        /\ (2 <= String.length (format_d 2 (whole / 3600)))%nat
        /\ String.length (format_d 2 (whole / 60 mod 60)) = 2%nat
        /\ String.length (format_d 2 (whole mod 60)) = 2%nat
        /\ String.length (format_d 3 millisec) = 3%nat)
  /\ format_srt_time (Binary64.true_div 366125 100)
     = Some "01:01:01,250"%string
  /\ format_srt_time (S754_zero false) = Some "00:00:00,000"%string
  /\ format_srt_time (Binary64.true_div 900005 10)
     = Some "25:00:00,500"%string
  /\ format_srt_time (Binary64.true_div 19996 10000)
     = Some "00:00:01,999"%string.
Proof.
  split; [|repeat split; vm_compute; reflexivity].
  intros seconds Hfin.
  assert (Hwhole : exists whole,
             Binary64.to_int seconds = Some whole /\ 0 <= whole
             /\ (inject_Z whole <= Binary64.to_Q seconds)%Q
             /\ (Binary64.to_Q seconds < inject_Z whole + 1)%Q
             /\ exists product,
                  Binary64.mul (Binary64.sub seconds (Binary64.of_int whole))
                    (Binary64.of_int 1000) = product
                  /\ (product = S754_zero true \/ below_1000 product)).
  { destruct seconds as [s|s| |s m e]; try contradiction.
    - exists 0. split; [reflexivity|]. split; [lia|].
      split; [unfold Qle; simpl; lia|]. split; [unfold Qlt; simpl; lia|].
      eexists. split; [reflexivity|].
      destruct s; [left | right; left]; reflexivity.
    - destruct Hfin as [-> Hb].
      destruct (frac_of_finite m e Hb) as (whole & Hw & Hw0 & Hfrac).
      destruct (to_int_trunc m e) as (n & Hn & Hlo & Hhi).
      assert (n = whole) by congruence. subst n.
      exists whole. repeat (split; [assumption|]).
      eexists. split; [reflexivity|]. right. apply millisec_of_frac, Hfrac. }
  destruct Hwhole as (whole & Hw & Hw0 & Hlo & Hhi & product & Eprod & Hprod).
  assert (Hms : exists millisec,
             Binary64.to_int product = Some millisec /\ 0 <= millisec < 1000
             /\ (inject_Z millisec <= Binary64.to_Q product)%Q
             /\ (Binary64.to_Q product < inject_Z millisec + 1)%Q).
  { destruct Hprod as [->|Hbelow].
    - exists 0. split; [reflexivity|]. split; [lia|].
      split; [unfold Qle; simpl; lia | unfold Qlt; simpl; lia].
    - destruct (below_1000_to_int product Hbelow) as (ms & Hms & Hrange).
      exists ms. split; [exact Hms|]. split; [exact Hrange|].
      destruct Hbelow as [->|(m & e & -> & _)].
      + injection Hms as <-. split; [unfold Qle | unfold Qlt]; simpl; lia.
      + destruct (to_int_trunc m e) as (n & Hn & Hlo' & Hhi').
        assert (n = ms) by congruence. subst n. split; assumption. }
  destruct Hms as (millisec & Hms & Hrange & Hmlo & Hmhi).
  exists whole, millisec. cbv zeta. rewrite Eprod.
  repeat (split; [assumption|]).
  assert (Hmin : 0 <= whole / 60 mod 60 < 60) by (apply Z.mod_pos_bound; lia).
  assert (Hsec : 0 <= whole mod 60 < 60) by (apply Z.mod_pos_bound; lia).
  assert (Hhours : 0 <= whole / 3600) by (apply Z.div_pos; lia).
  split.
  - unfold format_srt_time. rewrite Hw, Eprod, Hms.
    rewrite Z.div_div by lia. reflexivity.
  - split; [apply format_d_min_width; exact Hhours|].
    split; [apply format_d_2_length; lia|].
    split; [apply format_d_2_length; lia|].
    apply format_d_3_length; exact Hrange.
Qed.

Lemma format_srt_time_renders_witness :
  let seconds := S754_finite false 8050798455324672 (-41) in
  Binary64.nonneg_finite seconds
  /\ exists whole millisec : Z,
       Binary64.to_int seconds = Some whole
       /\ 0 <= millisec < 1000
       /\ format_srt_time seconds
          = Some (format_d 2 (whole / 3600) ++ ":"
                  ++ format_d 2 (whole / 60 mod 60) ++ ":"
                  ++ format_d 2 (whole mod 60) ++ ","
                  ++ format_d 3 millisec)%string.
Proof.
  intros seconds.
  assert (Hfin : Binary64.nonneg_finite seconds) by (split; reflexivity).
  split; [exact Hfin|].
  destruct format_srt_time_renders as [Hall _].
  destruct (Hall seconds Hfin)
    as (whole & millisec & Hw & _ & _ & _ & _ & Hr & _ & _ & Hfmt & _).
  exists whole, millisec. auto.
Defined.

End Claims.

(** * The scenarios of the specification, run on the model *)

Section Scenarios.

Example single_word_file :
  srt_file [mkWord "hi" 0 500]
  = Some ("1" ++ newline ++ "00:00:00,000 --> 00:00:00,500" ++ newline
          ++ "hi" ++ newline ++ newline)%string.
Proof. vm_compute. reflexivity. Qed.

Example pause_splits :
  map cue_text (srt_cues [mkWord "a" 0 500; mkWord "b" 2000 2500])
  = ["a"; "b"]%string.
Proof. vm_compute. reflexivity. Qed.

Example no_trigger_merges :
  srt_cues [mkWord "a" 0 500; mkWord "b" 600 1100]
  = [{| index := 1; cue_start := Binary64.true_div 0 1000;
        cue_end := Binary64.true_div 1100 1000; cue_text := "a b" |}].
Proof. vm_compute. reflexivity. Qed.

Example duration_splits_at_seven_seconds :
  map cue_text
    (srt_cues [mkWord "a" 0 500; mkWord "b" 600 6999; mkWord "c" 7000 7000])
  = ["a b"; "c"]%string.
Proof. vm_compute. reflexivity. Qed.

(** A word starting at 1001 ms is stamped 00:00:01,000: the double nearest
    1.001 lies below it, and the milliseconds are truncated. *)
Example millisecond_lost_to_truncation :
  format_srt_time (Binary64.true_div 1001 1000) = Some "00:00:01,000"%string.
Proof. vm_compute. reflexivity. Qed.

End Scenarios.

(** * Further properties of the splitting loop *)

Section LoopInvariants.

Local Open Scope Z_scope.

Lemma snoc_follows (l : list Word) (w a b : Word) :
  follows (l ++ [w]) a b ->
  follows l a b \/ (b = w /\ exists pre, l = pre ++ [a]).
Proof.
  intros (pre & post & E).
  destruct (@exists_last _ (a :: b :: post)) as [mid [z Ez]]; [discriminate|].
  rewrite Ez, app_assoc in E. apply app_inj_tail in E. destruct E as [El <-].
  destruct mid as [|a' mid].
  - discriminate Ez.
  - injection Ez as <- Ez. destruct mid as [|b' mid].
    + injection Ez as -> _. right. split; [reflexivity|].
      exists pre. exact El.
    + injection Ez as <- Ez. left. exists pre, mid. exact El.
Qed.

Lemma last_app_single (pre : list Word) (a d : Word) : last (pre ++ [a]) d = a.
Proof. apply last_last. Qed.

(** X1.  Inside a written block a word starts less than 0.7 seconds after
    the word before it ends. *)
Theorem block_pauses_short (words : list Word) :
  Forall
    (fun g => forall a b,
         follows g a b ->
         (inject_Z (start b - end_ a) / 1000 < 7 # 10)%Q
         /\ start b - end_ a < 700)
    (groups words).
Proof.
  apply group_words_Forall.
  - intros w a b (pre & post & E). exfalso.
    destruct pre as [|x [|y pre]]; discriminate E.
  - intros first others w IH Eflag a b Hf.
    apply snoc_follows in Hf. destruct Hf as [Hf|[-> (pre & Epre)]].
    + apply IH, Hf.
    + assert (Ha : last others first = a).
      { rewrite <- (last_cons first others first), Epre. apply last_app_single. }
      assert (Hn : ~ pause_fires first others w).
      { intros Hp.
        assert (should_start_new_block first others w = true)
          by (apply should_start_new_block_spec; left; exact Hp).
        congruence. }
      unfold pause_fires in Hn. rewrite Ha in Hn.
      apply Qnot_le_lt in Hn. split; [exact Hn|].
      unfold Qlt in Hn. simpl in Hn. lia.
  - intros H. contradiction.
Qed.

Lemma block_pauses_short_witness :
  let a := mkWord "a" 0 500 in
  let b := mkWord "b" 600 1100 in
  In [a; b] (groups [a; b])
  /\ follows [a; b] a b
  /\ start b - end_ a < 700.
Proof.
  intros a b.
  assert (Hin : In [a; b] (groups [a; b])) by (vm_compute; left; reflexivity).
  assert (Hf : follows [a; b] a b) by (exists [], []; reflexivity).
  pose proof (block_pauses_short [a; b]) as H.
  rewrite Forall_forall in H.
  exact (conj Hin (conj Hf (proj2 (H _ Hin a b Hf)))).
Defined.

(** X2.  Inside a written block every word after the first, not only the
    last, ends less than 7 seconds after the first word starts. *)
Theorem block_words_within_duration (words : list Word) :
  Forall
    (fun g => forall first others w,
         g = first :: others -> In w others ->
         (inject_Z (end_ w - start first) / 1000 < 7)%Q
         /\ end_ w - start first < 7000)
    (groups words).
Proof.
  apply group_words_Forall.
  - intros w first others w' E Hin. injection E as _ <-. contradiction.
  - intros first others w IH Eflag first' others' w' E Hin.
    injection E as <- <-. apply in_app_or in Hin.
    destruct Hin as [Hin|[<-|[]]].
    + apply (IH first others w' eq_refl Hin).
    + assert (Hn : ~ duration_fires first others w).
      { intros Hp.
        assert (should_start_new_block first others w = true)
          by (apply should_start_new_block_spec; right; right; exact Hp).
        congruence. }
      unfold duration_fires in Hn. apply Qnot_le_lt in Hn.
      split; [exact Hn|]. unfold Qlt in Hn. simpl in Hn. lia.
  - intros H. contradiction.
Qed.

Lemma block_words_within_duration_witness :
  let a := mkWord "a" 0 500 in
  let b := mkWord "b" 600 1100 in
  In [a; b] (groups [a; b])
  /\ In b [b]
  /\ end_ b - start a < 7000.
Proof.
  intros a b.
  assert (Hin : In [a; b] (groups [a; b])) by (vm_compute; left; reflexivity).
  assert (Hb : In b [b]) by (left; reflexivity).
  pose proof (block_words_within_duration [a; b]) as H.
  rewrite Forall_forall in H.
  exact (conj Hin (conj Hb (proj2 (H _ Hin a [b] b eq_refl Hb)))).
Defined.

(** The first group of a loop entered with a non-empty open block starts
    with that block. *)
Lemma group_words_head (words : list Word) :
  forall cur, cur <> [] ->
    exists ext gs, group_words cur words = (cur ++ ext) :: gs.
Proof.
  induction words as [|w rest IH]; intros cur Hcur.
  - destruct cur as [|first others]; [contradiction|].
    exists [], []. simpl. rewrite app_nil_r. reflexivity.
  - destruct cur as [|first others]; [contradiction|]. simpl.
    destruct (should_start_new_block first others w).
    + exists [], (group_words [w] rest). rewrite app_nil_r. reflexivity.
    + destruct (IH ((first :: others) ++ [w]) ltac:(discriminate))
        as (ext & gs & E).
      exists (w :: ext), gs. simpl in E |- *. rewrite E.
      rewrite <- app_assoc. reflexivity.
Qed.

Lemma group_words_breaks (words : list Word) :
  forall cur g g',
    follows (group_words cur words) g g' ->
    exists first others w rest,
      g = first :: others /\ g' = w :: rest
      /\ should_start_new_block first others w = true.
Proof.
  induction words as [|w rest IH]; intros cur g g' (gs1 & gs2 & E).
  - exfalso. simpl in E.
    destruct cur; destruct gs1 as [|x [|y gs1]]; discriminate E.
  - simpl in E. destruct cur as [|first others].
    + apply (IH [w]). exists gs1, gs2. exact E.
    + destruct (should_start_new_block first others w) eqn:Eflag.
      * destruct gs1 as [|x gs1].
        -- injection E as <- E.
           destruct (group_words_head rest [w] ltac:(discriminate))
             as (ext & gs & Eh).
           rewrite Eh in E. injection E as <- _.
           exists first, others, w, ext. auto.
        -- injection E as _ E. apply (IH [w]). exists gs1, gs2. exact E.
      * apply (IH ((first :: others) ++ [w])). exists gs1, gs2. exact E.
Qed.

(** X3.  No break is idle: the first word of a block fires one of the three
    triggers against the block written before it, so the rule of the loop
    would not have let the two blocks be one. *)
Theorem breaks_are_triggered (words : list Word) (g g' : list Word) :
  follows (groups words) g g' ->
  exists first others w rest,
    g = first :: others /\ g' = w :: rest
    /\ ((7 # 10 <= inject_Z (start w - end_ (last others first)) / 1000)%Q
        \/ (80 < String.length (String.concat " " (map text g))
                 + String.length (text w) + 1)%nat
        \/ (7 <= inject_Z (end_ w - start first) / 1000)%Q).
Proof.
  intros Hf.
  destruct (group_words_breaks words [] g g' Hf)
    as (first & others & w & rest & -> & -> & Eflag).
  exists first, others, w, rest. split; [reflexivity|]. split; [reflexivity|].
  apply should_start_new_block_spec in Eflag. exact Eflag.
Qed.

Lemma breaks_are_triggered_witness :
  let a := mkWord "a" 0 500 in
  let b := mkWord "b" 2000 2500 in
  follows (groups [a; b]) [a] [b]
  /\ exists first others w rest,
       [a] = first :: others /\ [b] = w :: rest
       /\ ((7 # 10 <= inject_Z (start w - end_ (last others first)) / 1000)%Q
           \/ (80 < String.length (String.concat " " (map text [a]))
                    + String.length (text w) + 1)%nat
           \/ (7 <= inject_Z (end_ w - start first) / 1000)%Q).
Proof.
  intros a b.
  assert (Hf : follows (groups [a; b]) [a] [b])
    by (exists [], []; vm_compute; reflexivity).
  exact (conj Hf (breaks_are_triggered [a; b] [a] [b] Hf)).
Defined.

End LoopInvariants.

Section LoopAlgebra.

Local Open Scope Z_scope.






Lemma concat_length_ge (gs : list (list Word)) :
  Forall (fun g => g <> []) gs ->
  (List.length gs <= List.length (List.concat gs))%nat.
Proof.
  induction 1 as [|g gs Hg Hgs IH]; [simpl; lia|].
  cbn [List.concat List.length]. rewrite length_app.
  destruct g; [contradiction|]. cbn [List.length]. lia.
Qed.

(** X5.  The number in "Generated N subtitle blocks." never exceeds the
    number of words, and it is 0 for a transcript without words only: every
    word ends up in a block. *)
Theorem generated_blocks_bounds (words : list Word) :
  0 <= generated_blocks words <= Z.of_nat (List.length words)
  /\ (generated_blocks words = 0 <-> words = []).
Proof.
  rewrite generated_blocks_groups.
  pose proof (concat_length_ge (groups words) (groups_nonempty words)) as Hle.
  rewrite groups_concat in Hle.
  split; [lia|]. split.
  - intros H0. destruct words as [|w rest]; [reflexivity|]. exfalso.
    destruct (group_words_head rest [w] ltac:(discriminate)) as (g & gs & E).
    unfold groups in H0. cbn [group_words] in H0. rewrite E in H0.
    cbn [List.length] in H0. lia.
  - intros ->. reflexivity.
Qed.

End LoopAlgebra.

Section LoopComposition.

Local Open Scope Z_scope.














(** X8.  When the words come ordered by start time, so do the blocks: the
    start time written for a block is at most the start time written for
    the next one. *)
Theorem cue_starts_ordered (words : list Word) :
  Sorted (fun a b => start a <= start b) words ->
  forall c c',
    follows (srt_cues words) c c' ->
    Binary64.leb (cue_start c) (cue_start c') = true.
Proof.
  intros Hsorted c c' (pre & post & Ecues).
  assert (Hss : StronglySorted (fun a b => start a <= start b) words).
  { apply Sorted_StronglySorted; [|exact Hsorted].
    intros x y z Hxy Hyz. lia. }
  pose proof (groups_block_times words) as Htimes.
  rewrite Ecues in Htimes.
  apply Forall2_app_inv_r in Htimes.
  destruct Htimes as (gs1 & gs' & _ & Htail & Egs).
  inversion Htail as [|g c0 gs'' cs Hg Htail' Eg Ec]; subst.
  inversion Htail' as [|g' c0 gs2 cs Hg' _ Eg Ec]; subst.
  pose proof (groups_nonempty words) as Hne.
  rewrite Egs in Hne. rewrite Forall_forall in Hne.
  destruct g as [|first others];
    [exfalso; apply (Hne []); [apply in_or_app; right; left|]; reflexivity|].
  destruct g' as [|first' others'];
    [exfalso; apply (Hne []); [apply in_or_app; right; right; left|];
     reflexivity|].
  destruct (Hg first others eq_refl) as [-> _].
  destruct (Hg' first' others' eq_refl) as [-> _].
  apply true_div_1000_mono.
  pose proof (groups_split words gs1 _ _ Egs) as Ew.
  rewrite Ew in Hss. cbn [app] in Hss.
  apply StronglySorted_after in Hss. rewrite Forall_forall in Hss.
  apply Hss. apply in_or_app. right. cbn [List.concat].
  apply in_or_app. left. left. reflexivity.
Qed.

Lemma cue_starts_ordered_witness :
  let words := [mkWord "a" 0 2600; mkWord "b" 3300 3100] in
  Sorted (fun a b => start a <= start b) words
  /\ Binary64.leb (Binary64.true_div 0 1000) (Binary64.true_div 3300 1000)
     = true.
Proof.
  intros words.
  assert (Hs : Sorted (fun a b => start a <= start b) words).
  { repeat constructor. simpl. lia. }
  split; [exact Hs|].
  refine (cue_starts_ordered words Hs
           (mkCue 1 (Binary64.true_div 0 1000) (Binary64.true_div 2600 1000) "a")
           (mkCue 2 (Binary64.true_div 3300 1000) (Binary64.true_div 3100 1000) "b")
           _).
  exists [], []. reflexivity.
Defined.

End LoopComposition.

Section LoopStability.

Local Open Scope Z_scope.

Lemma group_words_single_snoc (w : Word) (l : list Word) :
  forall cur first others,
    group_words cur l = [first :: others] ->
    should_start_new_block first others w = false ->
    group_words cur (l ++ [w]) = [(first :: others) ++ [w]].
Proof.
  induction l as [|a l IH]; intros cur first others E Hflag.
  - destruct cur as [|c cs]; [discriminate E|].
    cbn [group_words] in E. injection E as -> ->.
    cbn [app group_words]. rewrite Hflag. reflexivity.
  - destruct cur as [|c cs].
    + cbn [app group_words] in *. apply (IH [a]); assumption.
    + change ((a :: l) ++ [w]) with (a :: (l ++ [w])).
      cbn [group_words] in *.
      destruct (should_start_new_block c cs a).
      * exfalso. injection E as _ _ E.
        destruct (group_words_head l [a] ltac:(discriminate)) as (ext & gs & Eh).
        rewrite Eh in E. discriminate E.
      * apply IH; assumption.
Qed.

(** X14.  A written block is stable: the loop run on the words of one of
    its blocks alone gives that block back, undivided. *)
Theorem blocks_are_stable (words : list Word) :
  Forall (fun g => groups g = [g]) (groups words).
Proof.
  apply group_words_Forall.
  - intros w. reflexivity.
  - intros first others w IH Hflag.
    apply (group_words_single_snoc w (first :: others) [] first others IH Hflag).
  - intros H. contradiction.
Qed.

(** X15.  What is written stays: the blocks a transcript gives, the last
    one apart, are the first blocks, with the same numbers, times and texts,
    of every transcript that goes on from it. *)
Theorem closed_blocks_stay (words more : list Word) :
  exists rest,
    srt_cues (words ++ more) = removelast (srt_cues words) ++ rest.
Proof.
  destruct words as [|w0 ws]; [exists (srt_cues more); reflexivity|].
  set (words := w0 :: ws).
  assert (Hopen : current_block_words (run_loop words initial_state) <> [])
    by (apply run_loop_open; discriminate).
  assert (E1 : srt_cues words
               = f (run_loop words initial_state)
                 ++ cues_from (srt_counter (run_loop words initial_state))
                      [current_block_words (run_loop words initial_state)]).
  { unfold srt_cues. change (create_speaker_srt words)
      with (flush (run_loop [] (run_loop words initial_state))).
    rewrite (proj1 (flush_run_loop [] _)).
    destruct (current_block_words (run_loop words initial_state));
      [contradiction | reflexivity]. }
  assert (E2 : srt_cues (words ++ more)
               = f (run_loop words initial_state)
                 ++ cues_from (srt_counter (run_loop words initial_state))
                      (group_words
                         (current_block_words (run_loop words initial_state))
                         more)).
  { unfold srt_cues. change (create_speaker_srt (words ++ more))
      with (flush (run_loop (words ++ more) initial_state)).
    rewrite run_loop_app. apply (proj1 (flush_run_loop more _)). }
  rewrite E1, E2.
  destruct (current_block_words (run_loop words initial_state))
    as [|first others]; [contradiction|].
  cbn [cues_from]. rewrite removelast_last. eexists. reflexivity.
Qed.

End LoopStability.

(** * The written file *)

Section FileFacts.

Local Open Scope Z_scope.








End FileFacts.

(** * The accuracy of the time stamps *)

Section StampFacts.

Local Open Scope Z_scope.

(** The quotient of a positive number of milliseconds below [2 ^ 53] by
    1000: a full mantissa [m] at the exponent [- K], at most half a unit of
    the last place away from the exact quotient. *)
Lemma true_div_1000_small (a : Z) :
  0 < a < 2 ^ 53 ->
  exists m K,
    9 <= K <= 62 /\ 2 ^ 52 <= Zpos m < 2 ^ 53
    /\ Binary64.true_div a 1000 = S754_finite false m (- K)
    /\ -500 <= 1000 * Zpos m - a * 2 ^ K <= 500.
Proof.
  intros Ha.
  destruct (true_div_1000_round a ltac:(lia))
    as (s & k & q & R & m & e & Hs & Hk & Hq & Hbr & Hdown & Hup & Htie
        & HR & Hme & Hdiv).
  rewrite Z.abs_eq in Hbr, Hdown, Hup, Htie by lia.
  assert (HX : 0 < 2 ^ k) by (apply Z.pow_pos_nonneg; lia).
  assert (HY : 0 < 2 ^ s) by (apply Z.pow_pos_nonneg; lia).
  assert (HK9 : k + 61 < 53 + s).
  { apply pow2_lt_exp; [lia|]. rewrite !pow2_split by lia.
    change (2 ^ 61) with 2305843009213693952.
    assert (H1 : 1000 * 2 ^ k * 2 ^ 52 <= 1000 * 2 ^ k * q)
      by (apply Z.mul_le_mono_nonneg_l; lia).
    assert (H2 : a * 2 ^ s < 2 ^ 53 * 2 ^ s)
      by (apply Z.mul_lt_mono_pos_r; lia).
    change (2 ^ 52) with 4503599627370496 in H1.
    change (2 ^ 53) with 9007199254740992 in H2 |- *.
    clear - H1 H2 Hbr HX. lia. }
  assert (HK62 : s < k + 63).
  { apply pow2_lt_exp; [lia|]. rewrite pow2_split by lia.
    change (2 ^ 63) with 9223372036854775808.
    assert (H1 : 1000 * 2 ^ k * (q + 1) <= 1000 * 2 ^ k * 2 ^ 53)
      by (apply Z.mul_le_mono_nonneg_l; lia).
    assert (H2 : 1 * 2 ^ s <= a * 2 ^ s)
      by (apply Z.mul_le_mono_nonneg_r; lia).
    change (2 ^ 53) with 9007199254740992 in H1.
    clear - H1 H2 Hbr HX. lia. }
  set (K := s - k).
  assert (HKr : 9 <= K <= 62) by (unfold K; lia).
  assert (HZ : 512 <= 2 ^ K).
  { change 512 with (2 ^ 9). apply Z.pow_le_mono_r; lia. }
  assert (Es : 2 ^ s = 2 ^ K * 2 ^ k).
  { rewrite <- pow2_split by lia. f_equal. unfold K. lia. }
  rewrite Es in Hbr, Hdown, Hup, Htie.
  set (X := 2 ^ k) in *. set (Z := 2 ^ K) in *.
  set (d := a * Z - 1000 * q).
  assert (Ed : a * (Z * X) - 1000 * X * q = X * d) by (unfold d; ring).
  rewrite Ed in Hdown, Hup, Htie.
  assert (Hd : 0 <= d < 1000).
  { assert (H1 : X * (1000 * q) <= X * (a * Z)).
    { replace (X * (1000 * q)) with (1000 * X * q) by ring.
      replace (X * (a * Z)) with (a * (Z * X)) by ring. lia. }
    assert (H2 : X * (a * Z) < X * (1000 * (q + 1))).
    { replace (X * (1000 * (q + 1))) with (1000 * X * (q + 1)) by ring.
      replace (X * (a * Z)) with (a * (Z * X)) by ring. lia. }
    apply Z.mul_le_mono_pos_l in H1; [|exact HX].
    apply Z.mul_lt_mono_pos_l in H2; [|exact HX].
    unfold d. lia. }
  assert (Herr : -500 <= 1000 * R - a * Z <= 500).
  { destruct (Z.lt_trichotomy d 500) as [Hlt|[Heq|Hgt]].
    - rewrite Hdown.
      + unfold d in *. lia.
      + assert (X * d < X * 500) by (apply Z.mul_lt_mono_pos_l; lia). lia.
    - unfold d in *. lia.
    - rewrite Hup.
      + unfold d in *. lia.
      + assert (X * 500 < X * d) by (apply Z.mul_lt_mono_pos_l; lia). lia. }
  assert (HR53 : R < 2 ^ 53).
  { destruct (Z_lt_le_dec R (2 ^ 53)) as [H|H]; [exact H|]. exfalso.
    assert (ER : R = 2 ^ 53) by lia.
    assert (Hgap : 0 < 1000 * 2 ^ 53 - a * Z <= 500).
    { unfold d in Hd. rewrite ER in Herr.
      assert (q + 1 = 2 ^ 53) by lia. lia. }
    destruct (Z_le_gt_dec K 53) as [HK|HK].
    - assert (E53 : 2 ^ 53 = Z * 2 ^ (53 - K)).
      { unfold Z. rewrite <- pow2_split by lia. f_equal. lia. }
      rewrite E53 in Hgap.
      replace (1000 * (Z * 2 ^ (53 - K)) - a * Z)
        with (Z * (1000 * 2 ^ (53 - K) - a)) in Hgap by ring.
      set (t := 1000 * 2 ^ (53 - K) - a) in *.
      assert (0 < t).
      { destruct (Z_lt_le_dec 0 t) as [Ht|Ht]; [exact Ht|].
        assert (Z * t <= Z * 0) by (apply Z.mul_le_mono_nonneg_l; lia). lia. }
      assert (Z * 1 <= Z * t) by (apply Z.mul_le_mono_nonneg_l; lia). lia.
    - assert (EZ : Z = 2 ^ 53 * 2 ^ (K - 53)).
      { unfold Z. rewrite <- pow2_split by lia. f_equal. lia. }
      rewrite EZ in Hgap.
      replace (1000 * 2 ^ 53 - a * (2 ^ 53 * 2 ^ (K - 53)))
        with (2 ^ 53 * (1000 - a * 2 ^ (K - 53))) in Hgap by ring.
      set (t := 1000 - a * 2 ^ (K - 53)) in *.
      assert (0 < t).
      { destruct (Z_lt_le_dec 0 t) as [Ht|Ht]; [exact Ht|].
        assert (2 ^ 53 * t <= 2 ^ 53 * 0)
          by (apply Z.mul_le_mono_nonneg_l; lia). lia. }
      assert (2 ^ 53 * 1 <= 2 ^ 53 * t)
        by (apply Z.mul_le_mono_nonneg_l; lia).
      change (2 ^ 53) with 9007199254740992 in *. lia. }
  assert (Em : m = R /\ e = - K).
  { destruct Hme as [(_ & -> & ->)|(HR' & _)]; [unfold K; lia | lia]. }
  destruct Em as [-> ->].
  exists (Z.to_pos R), K.
  replace (- K <=? 971) with true in Hdiv by (symmetry; apply Z.leb_le; lia).
  replace (a <? 0) with false in Hdiv by (symmetry; apply Z.ltb_ge; lia).
  rewrite Z2Pos.id by lia.
  split; [exact HKr|]. split; [lia|]. split; [exact Hdiv | exact Herr].
Qed.

(** The whole seconds and what is left of the mantissa. *)
Lemma whole_and_rest (a m K : Z) :
  0 <= a -> 9 <= K ->
  -500 <= 1000 * m - a * 2 ^ K <= 500 ->
  m / 2 ^ K = a / 1000
  /\ -500 <= 1000 * (m mod 2 ^ K) - (a mod 1000) * 2 ^ K <= 500.
Proof.
  intros Ha HK Herr.
  assert (HZ : 512 <= 2 ^ K).
  { change 512 with (2 ^ 9). apply Z.pow_le_mono_r; lia. }
  set (Z := 2 ^ K) in *.
  pose proof (Z.div_mod a 1000 ltac:(lia)) as Ea.
  pose proof (Z.mod_pos_bound a 1000 ltac:(lia)) as Hr.
  set (n := a / 1000) in *. set (r := a mod 1000) in *.
  assert (EaZ : a * Z = 1000 * (n * Z) + r * Z) by (rewrite Ea; ring).
  assert (HrZ : 0 <= r * Z <= 999 * Z).
  { split; [apply Z.mul_nonneg_nonneg; lia|].
    apply Z.mul_le_mono_nonneg_r; lia. }
  rewrite EaZ in Herr.
  assert (Hdiv : m / Z = n).
  { symmetry. apply (Z.div_unique m Z n (m - n * Z)); [left; lia | ring]. }
  split; [exact Hdiv|].
  assert (Emod : m mod Z = m - n * Z).
  { symmetry. apply (Z.mod_unique m Z n (m - n * Z)); [left; lia | ring]. }
  rewrite Emod. lia.
Qed.

(** The subtraction of the whole seconds is exact. *)
Lemma frac_exact (m : positive) (K : Z) :
  2 ^ 52 <= Zpos m < 2 ^ 53 -> 1 <= K <= 1000 ->
  let rest := Zpos m mod 2 ^ K in
  let frac := Binary64.sub (S754_finite false m (- K))
                (Binary64.of_int (Zpos m / 2 ^ K)) in
  (rest = 0 /\ frac = S754_zero false)
  \/ exists mf sh,
       0 <= sh /\ frac = S754_finite false mf (- K - sh)
       /\ Zpos mf = rest * 2 ^ sh /\ 2 ^ 52 <= Zpos mf < 2 ^ 53.
Proof.
  intros Hm HK rest frac.
  assert (HX : 0 < 2 ^ K) by (apply Z.pow_pos_nonneg; lia).
  pose proof (Z.div_mod (Zpos m) (2 ^ K) ltac:(lia)) as Hdm.
  pose proof (Z.mod_pos_bound (Zpos m) (2 ^ K) HX) as Hmod.
  assert (Hw0 : 0 <= Zpos m / 2 ^ K) by (apply Z.div_pos; lia).
  assert (Hdm53 : Zpos (digits2_pos m) = 53)
    by (apply digits2_pos_unique; exact Hm).
  unfold frac.
  destruct (Zpos m / 2 ^ K) as [|w|w] eqn:Ew; [| |lia].
  - right. exists m, 0. split; [lia|]. split.
    + rewrite Z.sub_0_r. reflexivity.
    + split; [|exact Hm]. unfold rest. rewrite Z.mul_0_r, Z.add_0_l in Hdm.
      rewrite <- Hdm. change (2 ^ 0) with 1. lia.
  - assert (Hk : K < 53).
    { apply pow2_lt_exp; [lia|].
      assert (2 ^ K * 1 <= 2 ^ K * Zpos w)
        by (apply Z.mul_le_mono_nonneg_l; lia). lia. }
    assert (Hdw : Zpos (digits2_pos w) = 53 - K).
    { apply digits2_pos_unique. rewrite <- Ew. split.
      - apply Z.div_le_lower_bound; [lia|].
        rewrite <- pow2_split by lia.
        replace (K + (53 - K - 1)) with 52 by lia. lia.
      - apply Z.div_lt_upper_bound; [lia|].
        rewrite <- pow2_split by lia.
        replace (K + (53 - K)) with 53 by lia. lia. }
    unfold Binary64.of_int, binary_normalize.
    destruct (binary_round_exact false w 0) as (w' & -> & Ew');
      [rewrite Hdw; lia | rewrite Hdw; lia |].
    rewrite Hdw in Ew' |- *.
    replace (Z.max (53 - K + 0 - 53) (-1074)) with (- K) in * by lia.
    replace (0 - - K) with K in Ew' by lia.
    unfold Binary64.sub, SFsub. rewrite Z.min_id.
    unfold shl_align. rewrite Z.sub_diag. cbn [fst cond_Zopp].
    rewrite Ew'.
    replace (Zpos m - Zpos w * 2 ^ K) with rest by (unfold rest; lia).
    destruct rest as [|r|r] eqn:Er; [| |lia].
    + left. split; reflexivity.
    + right. cbn [binary_normalize].
      assert (Hdr : Zpos (digits2_pos r) <= K) by (apply digits2_pos_le; lia).
      destruct (binary_round_exact false r (- K)) as (mf & -> & Emf);
        [lia | lia |].
      replace (Z.max (Zpos (digits2_pos r) + - K - 53) (-1074))
        with (Zpos (digits2_pos r) + - K - 53) in * by lia.
      set (sh := - K - (Zpos (digits2_pos r) + - K - 53)) in *.
      assert (Hsh : 0 <= sh) by (unfold sh; lia).
      exists mf, sh. split; [exact Hsh|]. split.
      * f_equal. unfold sh. lia.
      * split; [exact Emf|].
        pose proof (digits2_pos_shift r mf sh Hsh Emf) as Hdmf.
        pose proof (digits2_pos_bounds mf) as Hb.
        replace (Zpos (digits2_pos mf)) with 53 in Hb by (unfold sh in Hdmf; lia).
        exact Hb.
Qed.

(** Rounding an exact product that lies from [B] up to a little below
    [T <= 1000] gives a double whose integer part lies from [B] up to, not
    including, [T]. *)
Lemma round_aux_between (P : positive) (E B T Cst : Z) :
  E <= -43 ->
  -1117 <= E ->
  Zpos (digits2_pos P) + E <= 10 ->
  Zpos (digits2_pos P) - 53 <= 53 ->
  2 ^ 53 < 2 * Cst ->
  0 <= B -> T <= 1000 ->
  B * 2 ^ (- E) <= Zpos P <= T * 2 ^ (- E) - Cst ->
  exists n,
    Binary64.to_int
      (binary_round_aux Binary64.prec Binary64.emax false (Zpos P) E loc_Exact)
    = Some n
    /\ B <= n < T.
Proof.
  intros HE HElo HdP Hn53 HC HB HT1000 HP.
  unfold binary_round_aux, shr_fexp. cbn [shr_record_of_loc Zdigits2].
  rewrite fexp_eq.
  set (n1 := Z.max (Zpos (digits2_pos P) + E - 53) (-1074) - E).
  destruct (shr_exact_spec (Zpos P) E n1 ltac:(lia)) as (mrs1 & -> & Hinv1).
  assert (Hn1 : 0 <= Z.max 0 n1 <= 53) by (unfold n1; lia).
  set (k1 := Z.max 0 n1) in *.
  set (E1 := E + k1).
  assert (HE1 : -1074 <= E1 <= -43) by (unfold E1, k1, n1; lia).
  destruct (round_nearest_even_spec (Zpos P) k1 mrs1 ltac:(lia) Hinv1)
    as (Hq0 & Hq & HR & _).
  set (q := shr_m mrs1) in *.
  set (R := round_nearest_even q (loc_of_shr_record mrs1)) in *.
  assert (HX : 0 < 2 ^ k1 <= 2 ^ 53).
  { split; [apply Z.pow_pos_nonneg; lia | apply Z.pow_le_mono_r; lia]. }
  assert (Hsplit : 2 ^ (- E) = 2 ^ (- E1) * 2 ^ k1).
  { replace (- E) with (- E1 + k1) by (unfold E1; lia).
    rewrite pow2_split by lia. ring. }
  assert (HW1 : 0 < 2 ^ (- E1)) by (apply Z.pow_pos_nonneg; lia).
  rewrite Hsplit in HP.
  set (W1 := 2 ^ (- E1)) in *.
  set (X := 2 ^ k1) in *.
  assert (HBT : B * W1 <= R < T * W1).
  { replace (B * (W1 * X)) with (X * (B * W1)) in HP by ring.
    replace (T * (W1 * X)) with (X * (T * W1)) in HP by ring.
    replace (X * q) with (X * q) in Hq by ring.
    assert (HqB : B * W1 < q + 1).
    { apply (Z.mul_lt_mono_pos_l X); lia. }
    destruct HR as [->|[-> Hhalf]]; split; try lia.
    - apply (Z.mul_lt_mono_pos_l X); lia.
    - apply (Z.mul_lt_mono_pos_l X); lia. }
  clearbody R. clear Hq HR HP Hinv1.
  rewrite fexp_eq.
  set (n2 := Z.max (Zdigits2 R + E1 - 53) (-1074) - E1).
  assert (HR0 : 0 <= R).
  { assert (0 <= B * W1) by (apply Z.mul_nonneg_nonneg; lia). lia. }
  destruct (shr_exact_spec R E1 n2 HR0) as (mrs2 & -> & Hinv2).
  set (k2 := Z.max 0 n2) in *.
  destruct (round_nearest_even_spec R k2 mrs2 ltac:(lia) Hinv2)
    as (Hm0 & Hm & _).
  set (m2 := shr_m mrs2) in *.
  assert (HX2 : 0 < 2 ^ k2) by (apply Z.pow_pos_nonneg; lia).
  assert (HdR : Zdigits2 R + E1 <= 10).
  { destruct R as [|r|r]; [cbn [Zdigits2]; lia | | lia]. cbn [Zdigits2].
    assert (Zpos (digits2_pos r) <= 10 - E1); [|lia].
    apply digits2_pos_le; [lia|].
    replace (10 - E1) with (10 + - E1) by lia.
    rewrite pow2_split by lia. change (2 ^ 10) with 1024. fold W1.
    assert (T * W1 <= 1000 * W1) by (apply Z.mul_le_mono_nonneg_r; lia).
    lia. }
  assert (HE2 : E1 + k2 <= -43) by (unfold k2, n2; lia).
  set (E2 := E1 + k2) in *.
  assert (HW2 : 0 < 2 ^ (- E2)) by (apply Z.pow_pos_nonneg; lia).
  assert (Hsplit2 : W1 = 2 ^ (- E2) * 2 ^ k2).
  { unfold W1. replace (- E1) with (- E2 + k2) by (unfold E2; lia).
    rewrite pow2_split by (unfold E2, k2; lia). ring. }
  set (W2 := 2 ^ (- E2)) in *. set (X2 := 2 ^ k2) in *.
  assert (Hm2 : B * W2 <= m2 < T * W2).
  { rewrite Hsplit2 in HBT.
    replace (B * (W2 * X2)) with (X2 * (B * W2)) in HBT by ring.
    replace (T * (W2 * X2)) with (X2 * (T * W2)) in HBT by ring.
    split.
    - assert (B * W2 < m2 + 1); [|lia].
      apply (Z.mul_lt_mono_pos_l X2); lia.
    - apply (Z.mul_lt_mono_pos_l X2); lia. }
  destruct m2 as [|m|m] eqn:Em2.
  - exists 0. split; [reflexivity|].
    assert (0 <= B * W2) by (apply Z.mul_nonneg_nonneg; lia).
    split.
    + destruct (Z_le_gt_dec B 0) as [H0|H0]; [lia|].
      assert (1 * W2 <= B * W2) by (apply Z.mul_le_mono_nonneg_r; lia). lia.
    + destruct (Z_lt_le_dec 0 T) as [H0|H0]; [lia|].
      assert (T * W2 <= 0 * W2) by (apply Z.mul_le_mono_nonneg_r; lia). lia.
  - replace (E2 <=? Binary64.emax - Binary64.prec) with true
      by (symmetry; apply Z.leb_le; unfold Binary64.emax, Binary64.prec; lia).
    eexists. split; [reflexivity|]. cbn [cond_Zopp].
    rewrite shiftl_neg by lia. fold W2. split.
    + apply Z.div_le_lower_bound; lia.
    + apply Z.div_lt_upper_bound; lia.
  - lia.
Qed.

(** The milliseconds of a fraction that is within half a unit of the last
    place of [r / 1000]. *)
Lemma millisec_near (mf : positive) (sh K rest r : Z) :
  0 <= sh -> 9 <= K <= 62 ->
  Zpos mf = rest * 2 ^ sh -> 2 ^ 52 <= Zpos mf < 2 ^ 53 ->
  0 < rest < 2 ^ K ->
  0 <= r < 1000 ->
  -500 <= 1000 * rest - r * 2 ^ K <= 500 ->
  exists millisec,
    Binary64.to_int
      (Binary64.mul (S754_finite false mf (- K - sh)) (Binary64.of_int 1000))
    = Some millisec
    /\ 0 < r /\ r - 1 <= millisec <= r.
Proof.
  intros Hsh HK Emf Hmf Hrest Hr Herr.
  change (Binary64.of_int 1000) with (S754_finite false 8796093022208000 (-43)).
  unfold Binary64.mul, SFmul. cbn [xorb].
  assert (HZ : 512 <= 2 ^ K).
  { change 512 with (2 ^ 9). apply Z.pow_le_mono_r; lia. }
  assert (HY : 0 < 2 ^ sh) by (apply Z.pow_pos_nonneg; lia).
  assert (Hr1 : 0 < r).
  { destruct (Z_lt_le_dec 0 r) as [H|H]; [exact H|].
    assert (r = 0) by lia. subst r. lia. }
  assert (HKsh : 53 <= K + sh).
  { assert (52 < K + sh); [|lia]. apply pow2_lt_exp; [lia|].
    rewrite pow2_split by lia.
    assert (rest * 2 ^ sh < 2 ^ K * 2 ^ sh)
      by (apply Z.mul_lt_mono_pos_r; lia). lia. }
  assert (Hsh53 : sh < 53).
  { apply pow2_lt_exp; [lia|].
    assert (1 * 2 ^ sh <= rest * 2 ^ sh)
      by (apply Z.mul_le_mono_nonneg_r; lia). lia. }
  assert (Hdmf : Zpos (digits2_pos mf) = 53)
    by (apply digits2_pos_unique; exact Hmf).
  assert (HdP : Zpos (digits2_pos (mf * 8796093022208000)) <= 106).
  { apply digits2_pos_le; [lia|]. rewrite Pos2Z.inj_mul.
    change (2 ^ 106) with (2 ^ 53 * 9007199254740992).
    assert (Zpos mf * 8796093022208000 <= Zpos mf * 9007199254740992)
      by (apply Z.mul_le_mono_nonneg_l; lia).
    assert (Zpos mf * 9007199254740992 < 2 ^ 53 * 9007199254740992)
      by (apply Z.mul_lt_mono_pos_r; lia).
    lia. }
  assert (Epow : 2 ^ (- (- K - sh + -43)) = 8796093022208 * (2 ^ sh * 2 ^ K)).
  { replace (- (- K - sh + -43)) with (43 + (sh + K)) by lia.
    rewrite !pow2_split by lia. reflexivity. }
  set (Y := 2 ^ sh) in *. set (Z := 2 ^ K) in *.
  assert (HW : 9007199254740992 <= Y * Z /\ 512 * Y <= Y * Z).
  { split.
    - change 9007199254740992 with (2 ^ 53).
      unfold Y, Z. rewrite <- pow2_split by lia.
      apply Z.pow_le_mono_r; lia.
    - rewrite (Z.mul_comm 512). apply Z.mul_le_mono_nonneg_l; lia. }
  assert (HrZ : r * (Y * Z) = Y * (r * Z)) by ring.
  assert (Hlow : Y * (r * Z - Z) <= Y * (1000 * rest))
    by (apply Z.mul_le_mono_nonneg_l; lia).
  assert (Hhigh : Y * (1000 * rest) <= Y * (r * Z + 500))
    by (apply Z.mul_le_mono_nonneg_l; lia).
  destruct (round_aux_between (mf * 8796093022208000) (- K - sh + -43)
              (r - 1) (r + 1)
              ((r + 1) * 2 ^ (- (- K - sh + -43))
               - Zpos (mf * 8796093022208000)))
    as (millisec & Hms & Hrange).
  - lia.
  - lia.
  - lia.
  - lia.
  - rewrite Epow, Pos2Z.inj_mul, Emf. fold Y.
    change (2 ^ 53) with 9007199254740992.
    set (W := Y * Z) in *.
    replace ((r + 1) * (8796093022208 * W) - rest * Y * 8796093022208000)
      with (8796093022208 * (r * W + W - Y * (1000 * rest))) by ring.
    replace (Y * (r * Z + 500)) with (r * W + 500 * Y) in Hhigh
      by (unfold W; ring).
    clear - HW Hhigh. lia.
  - lia.
  - lia.
  - split; [|lia].
    rewrite Epow, Pos2Z.inj_mul, Emf. fold Y.
    replace (rest * Y * 8796093022208000)
      with (8796093022208 * (Y * (1000 * rest))) by ring.
    replace ((r - 1) * (8796093022208 * (Y * Z)))
      with (8796093022208 * (Y * (r * Z - Z))) by ring.
    apply Z.mul_le_mono_nonneg_l; [lia | exact Hlow].
  - exists millisec. split; [exact Hms|]. split; [exact Hr1 | lia].
Qed.

End StampFacts.

Section StampAccuracy.

Local Open Scope Z_scope.

(** X10.  For a time of up to [2 ^ 53] milliseconds, the stamp written for
    [ms / 1000] shows the hours, minutes and seconds of the exact time, and
    its milliseconds are those of the exact time or one less; never more,
    and exact at whole seconds.  One less does occur: 1001 milliseconds are
    written as 00:00:01,000. *)
Theorem stamp_within_one_millisecond (ms : Z) :
  0 <= ms < 2 ^ 53 ->
  exists millisec,
    format_srt_time (Binary64.true_div ms 1000)
    = Some (format_d 2 (ms / 3600000) ++ ":"
            ++ format_d 2 (ms / 60000 mod 60) ++ ":"
            ++ format_d 2 (ms / 1000 mod 60) ++ ","
            ++ format_d 3 millisec)%string
    /\ (millisec = ms mod 1000
        \/ (0 < ms mod 1000 /\ millisec = ms mod 1000 - 1)).
Proof.
  intros Hms.
  assert (Hfields : forall whole millisec,
             whole = ms / 1000 ->
             (format_d 2 (whole / 60 / 60) ++ ":"
              ++ format_d 2 (whole / 60 mod 60) ++ ":"
              ++ format_d 2 (whole mod 60) ++ ","
              ++ format_d 3 millisec)%string
             = (format_d 2 (ms / 3600000) ++ ":"
                ++ format_d 2 (ms / 60000 mod 60) ++ ":"
                ++ format_d 2 (ms / 1000 mod 60) ++ ","
                ++ format_d 3 millisec)%string).
  { intros whole millisec ->. rewrite !Z.div_div by lia. reflexivity. }
  destruct (Z.eq_dec ms 0) as [->|Hn].
  - exists 0. split; [vm_compute; reflexivity | left; reflexivity].
  - destruct (true_div_1000_small ms ltac:(lia))
      as (m & K & HK & Hm & -> & Herr).
    destruct (whole_and_rest ms (Zpos m) K ltac:(lia) ltac:(lia) Herr)
      as (Hwhole & Hrest).
    pose proof (Z.mod_pos_bound ms 1000 ltac:(lia)) as Hr.
    assert (HX : 0 < 2 ^ K) by (apply Z.pow_pos_nonneg; lia).
    pose proof (Z.mod_pos_bound (Zpos m) (2 ^ K) HX) as Hmod.
    assert (HZ : 512 <= 2 ^ K).
    { change 512 with (2 ^ 9). apply Z.pow_le_mono_r; lia. }
    unfold format_srt_time. cbn [Binary64.to_int cond_Zopp].
    rewrite shiftl_neg by lia. rewrite Z.opp_involutive.
    destruct (frac_exact m K Hm ltac:(lia))
      as [(Erest & ->)|(mf & sh & Hsh & -> & Emf & Hmf)].
    + exists 0. split.
      * change (Binary64.to_int
                  (Binary64.mul (S754_zero false) (Binary64.of_int 1000)))
          with (Some 0).
        apply f_equal, Hfields, Hwhole.
      * left. rewrite Erest in Hrest.
        destruct (Z.eq_dec (ms mod 1000) 0) as [E0|N0]; [lia|].
        assert (1 * 2 ^ K <= ms mod 1000 * 2 ^ K)
          by (apply Z.mul_le_mono_nonneg_r; lia).
        lia.
    + assert (Hrest0 : 0 < Zpos m mod 2 ^ K).
      { destruct (Z.eq_dec (Zpos m mod 2 ^ K) 0) as [E0|N0]; [|lia].
        rewrite E0 in Emf. lia. }
      destruct (millisec_near mf sh K (Zpos m mod 2 ^ K) (ms mod 1000)
                  Hsh HK Emf Hmf ltac:(lia) Hr Hrest)
        as (millisec & Emul & Hr0 & Hrange).
      exists millisec. rewrite Emul. split.
      * apply f_equal, Hfields, Hwhole.
      * destruct (Z.eq_dec millisec (ms mod 1000)) as [E|N];
          [left; exact E | right; lia].
Qed.

Lemma stamp_within_one_millisecond_witness :
  0 <= 1001 < 2 ^ 53
  /\ exists millisec,
       format_srt_time (Binary64.true_div 1001 1000)
       = Some (format_d 2 (1001 / 3600000) ++ ":"
               ++ format_d 2 (1001 / 60000 mod 60) ++ ":"
               ++ format_d 2 (1001 / 1000 mod 60) ++ ","
               ++ format_d 3 millisec)%string
       /\ (millisec = 1001 mod 1000
           \/ (0 < 1001 mod 1000 /\ millisec = 1001 mod 1000 - 1)).
Proof.
  assert (H : 0 <= 1001 < 2 ^ 53) by (split; [lia | reflexivity]).
  exact (conj H (stamp_within_one_millisecond 1001 H)).
Defined.

End StampAccuracy.

(** * The whole run *)

Section ProcessFacts.

Local Open Scope Z_scope.

Import Process.


Ltac run_block :=
  cbv [extract_audio transcribe_audio generate_srt
       halted log emit call ret return_ raise bind try_except try_finally
       fst snd app negb].

(** What an event found in a run says. *)
Ltac read_event :=
  repeat match goal with
    | H : In _ (_ ++ _) |- _ => apply in_app_or in H
    | H : In ?ev ?t, Ev : forall ev, In ev ?t -> _ |- _ =>
        apply Ev in H; cbv beta iota in H
    | H : In _ (_ :: _) |- _ => cbn [In] in H
    | H : In _ [] |- _ => contradiction H
    | H : _ \/ _ |- _ => destruct H as [H|H]
    | H : False |- _ => contradiction
    | H : @eq Event _ ?ev |- _ => is_var ev; subst ev
    | H : @eq Event _ _ |- _ =>
        first [discriminate H | injection H as ? ?; subst | injection H as ?; subst]
    end.

Ltac known :=
  repeat match goal with
    | H : (_ =? _) = true |- _ => apply Z.eqb_eq in H
    | H : (_ =? _) = false |- _ => apply Z.eqb_neq in H
    end.

Ltac unpack :=
  repeat match goal with
    | H : exists _, _ |- _ => destruct H as (? & H)
    | H : _ /\ _ |- _ => destruct H as (? & H)
    end.


Ltac find_event :=
  first [ assumption
        | left; reflexivity
        | apply in_or_app; first [left; find_event | right; find_event]
        | right; find_event ].

(** A message that is no halt line, or a block that has returned. *)
Ltac no_halt :=
  first [ exact I
        | reflexivity
        | intros _; reflexivity
        | intros _; exact I
        | let Hm := fresh "Hm" in
          intros Hm; exfalso; unfold halt_line in Hm; simpl in Hm;
          destruct Hm as [Hm|Hm]; discriminate Hm ].

Ltac answer :=
  repeat match goal with
    | |- _ => eassumption
    | |- _ /\ _ => split
    | |- exists _, _ => eexists
    | |- True => exact I
    | |- _ \/ _ => first [left; congruence | right; congruence]
    | |- _ = _ => first [reflexivity | eassumption | congruence]
    | |- forall _, _ => intro
    | |- ~ _ => intro
    end.

(** One question to the world: the next test the run is stuck on. *)
Ltac ask_world :=
  match goal with
  | |- context [match ?x with _ => _ end] =>
      lazymatch x with
      | context [match _ with _ => _ end] => fail
      | _ => destruct x eqn:?
      end
  end.

(** Follow every way the block [b] of the goal can go. *)
Ltac all_ways b :=
  pattern b;
  match goal with |- ?P _ => let Spec := fresh "Spec" in set (Spec := P) end;
  run_block; repeat (ask_world; run_block);
  match goal with Spec := _ |- _ => subst Spec end;
  cbv beta; cbn [fst snd].

(** Step 1 runs ffmpeg once, never raises, and runs through exactly when
    ffmpeg exits with 0. *)
Lemma extract_audio_spec (w : World) (video_path : string) :
  let b := extract_audio w video_path in
  (forall ev, In ev (fst b) ->
     match ev with
     | Run _ _ => True
     | Log message => halt_line message -> snd b = Returned
     | ShowError _ _ => snd b = Returned
     | _ => False
     end)
  /\ match snd b with
     | Through _ =>
         exists result,
           subprocess_run w (command w video_path) = inr result
           /\ returncode result = 0
     | Returned =>
         In (Log "--- Process Halted ---") (fst b)
         /\ ~ (exists result,
                subprocess_run w (command w video_path) = inr result
                /\ returncode result = 0)
     | Raised _ => False
     end.
Proof.
  cbv zeta.
  all_ways (extract_audio w video_path).
  all: known.
  all: (split; [intros ev H; read_event; no_halt|]).
  all: try (split; [find_event|]).
  all: answer.
  all: match goal with H : exists _, _ |- _ => destruct H as (r' & Hr & Hc) end.
  all: congruence.
Qed.

(** Step 2 removes the temporary file whenever it finds it, however the
    transcription went; it runs through exactly when the transcription
    came back without the error status and the file is out of the way. *)
Lemma transcribe_audio_spec (w : World) (video_path api_key : string) :
  let b := transcribe_audio w video_path api_key in
  (forall ev, In ev (fst b) ->
     match ev with
     | Transcribe _ => True
     | Log message =>
         halt_line message ->
         match snd b with Through _ => False | _ => True end
     | SetApiKey key => key = api_key
     | Remove p => p = audio_path w video_path /\ audio_exists w = true
     | _ => False
     end)
  /\ (audio_exists w = true -> In (Remove (audio_path w video_path)) (fst b))
  /\ match snd b with
     | Through ws =>
         exists tr,
           client_error w = None
           /\ transcribe w (audio_path w video_path) = inr tr
           /\ status_is_error tr = false
           /\ ws = words tr
           /\ cleaned w video_path
     | Returned =>
         In (Log "--- Process Halted ---") (fst b)
         /\ cleaned w video_path
         /\ ~ (exists tr,
                 client_error w = None
                 /\ transcribe w (audio_path w video_path) = inr tr
                 /\ status_is_error tr = false)
     | Raised e =>
         audio_exists w = true
         /\ os_remove w (audio_path w video_path) = Some e
     end.
Proof.
  cbv zeta. unfold cleaned.
  all_ways (transcribe_audio w video_path api_key).
  all: (split; [intros ev H; read_event;
                first [exact I | reflexivity | split; reflexivity | no_halt]|]).
  all: (split; [intros H; first [discriminate H | cbn [In]; tauto]|]).
  all: try (split; [find_event|]).
  all: answer.
  all: try match goal with
         | H : exists _, _ |- _ => destruct H as (tr' & ? & ? & ?)
         end.
  all: congruence.
Qed.

(** Step 3 opens no file but [srt_path]; it runs through exactly when the
    file could be opened and every time stamp could be made. *)
Lemma generate_srt_spec (w : World) (srt_path : string) (ws : list Word) :
  let b := generate_srt w srt_path ws in
  (forall ev, In ev (fst b) ->
     match ev with
     | Log message => ~ halt_line message
     | Written p c =>
         p = srt_path /\ c = written_text (srt_cues ws)
         /\ open_write w srt_path = None
     | _ => False
     end)
  /\ (open_write w srt_path = None ->
      In (Written srt_path (written_text (srt_cues ws))) (fst b))
  /\ match snd b with
     | Through _ =>
         open_write w srt_path = None /\ exists c, srt_file ws = Some c
     | Returned => False
     | Raised e =>
         open_write w srt_path = Some e
         \/ (open_write w srt_path = None /\ srt_file ws = None)
     end.
Proof.
  cbv zeta.
  all_ways (generate_srt w srt_path ws).
  all: (split; [intros ev H; read_event;
                first [repeat split; reflexivity | no_halt]|]).
  all: (split; [intros H; first [discriminate H | cbn [In]; tauto]|]).
  all: answer.
  right. split; reflexivity.
Qed.

Lemma fst_bind {A B : Type} (m : Block A) (k : A -> Block B) :
  fst (bind m k)
  = fst m ++ match snd m with Through a => fst (k a) | _ => [] end.
Proof.
  destruct m as [t [a| |e]]; cbn [bind fst snd];
    [destruct (k a); reflexivity | |]; rewrite app_nil_r; reflexivity.
Qed.

Lemma snd_bind {A B : Type} (m : Block A) (k : A -> Block B) :
  snd (bind m k)
  = match snd m with
    | Through a => snd (k a)
    | Returned => Returned
    | Raised e => Raised e
    end.
Proof.
  destruct m as [t [a| |e]]; cbn [bind fst snd];
    [destruct (k a); reflexivity | |]; reflexivity.
Qed.

Ltac run_main :=
  cbv [halted log emit call ret return_ raise bind try_except try_finally
       fst snd negb].

(** The ways a whole run can go: the three steps are taken as they are, and
    what is left is followed to its end. *)
Ltac whole_run w video_path srt_path api_key :=
  unfold create_speaker_srt, process;
  pose proof (extract_audio_spec w video_path) as Step1;
  pose proof (transcribe_audio_spec w video_path api_key) as Step2;
  cbv zeta in Step1, Step2;
  destruct (extract_audio w video_path) as [t1 [[]| |e1]];
  destruct (transcribe_audio w video_path api_key) as [t2 [ws| |e2]];
  cbn [fst snd] in Step1, Step2;
  destruct Step1 as (Ev1 & End1);
  destruct Step2 as (Ev2 & Rm2 & End2);
  try contradiction;
  destruct (video_exists w) eqn:Ev;
  run_main;
  try match goal with
    | |- context [generate_srt w srt_path ?l] =>
        let Step3 := fresh "Step3" in
        pose proof (generate_srt_spec w srt_path l) as Step3;
        cbv zeta in Step3;
        destruct (generate_srt w srt_path l) as [t3 [[]| |e3]];
        cbn [fst snd] in Step3;
        destruct Step3 as (Ev3 & Wr3 & End3);
        try contradiction;
        run_main
    end.



(** X12.  The temporary audio file is removed in exactly the runs in which
    ffmpeg exited with 0 and the file is there after Step 2, whether the
    transcription succeeded, failed or raised; nothing else is ever removed.
    When ffmpeg exits with another code, what it left of the file stays. *)
Theorem temp_audio_removed_iff (w : World)
    (video_path srt_path api_key : string) (p : string) :
  In (Remove p) (create_speaker_srt w video_path srt_path api_key)
  <-> p = audio_path w video_path
      /\ video_exists w = true
      /\ (exists result,
            subprocess_run w (command w video_path) = inr result
            /\ returncode result = 0)
      /\ audio_exists w = true.
Proof.
  whole_run w video_path srt_path api_key.
  all: split;
    [ intros H; read_event; unpack; subst
    | intros (-> & Hv & Hrun & Ha) ].
  all: try discriminate.
  all: try solve [answer].
  all: try solve [exfalso; apply End1; exact Hrun].
  all: specialize (Rm2 Ha); find_event.
Qed.

Lemma temp_audio_removed_iff_witness :
  In (Remove "temp_talk.wav")
    (create_speaker_srt (obliging []) "talk.mp4" "talk.srt" "key").
Proof.
  apply (proj2 (temp_audio_removed_iff (obliging []) "talk.mp4" "talk.srt"
                  "key" "temp_talk.wav")).
  split; [reflexivity|]. split; [reflexivity|]. split; [|reflexivity].
  eexists. split; reflexivity.
Defined.



(** X16.  No run fails in silence, and none reports a failure it did not
    have: the success dialog is shown in exactly the runs that log neither
    of the two halt lines. *)
Theorem failure_is_reported (w : World) (video_path srt_path api_key : string) :
  let run := create_speaker_srt w video_path srt_path api_key in
  (exists title message, In (ShowInfo title message) run)
  <-> ~ (exists message, halt_line message /\ In (Log message) run).
Proof.
  cbv zeta.
  whole_run w video_path srt_path api_key.
  all: split;
    [ intros (title & message & H) (m & Hm & Hl); read_event
    | intros Hno ].
  all: try discriminate.
  all: try solve [eexists; eexists; find_event].
  all: try solve [exfalso; apply Hno; eexists; split;
                  [left; reflexivity | unpack; find_event]].
  all: try solve [exfalso; apply Hno; eexists; split;
                  [right; reflexivity | find_event]].
  all: try solve [exfalso; unfold halt_line in Hm; simpl in Hm;
                  destruct Hm as [Hm|Hm]; discriminate Hm].
  all: try solve [exfalso; auto].
  all: specialize (Hl Hm); discriminate Hl.
Qed.

End ProcessFacts.
